(** * go-stream: the source stage, the sink protocol and the input adapter

    A shallow embedding of [stream.go].

    - Go values live in a store: a slice is a window into an array cell,
      a pointer names a cell, an array is held by value.
    - A [panic] is an explicit [Panic] result.
    - A stage is an object that is threaded through the sink calls made
      on it.  A sink owns its downstream, so a pipeline is its source
      with the chain of stages below it; sinks neither reach the source
      nor the store, and callbacks do not panic.
    - [wrapSink] and the concrete stage types are not part of
      [stream.go]; they are modelled from the specification and marked
      as such. *)

From Stdlib Require Import ZArith.
From stdpp Require Import base option list gmap strings.

(** ** Results: a call either returns or panics with a message. *)

Inductive result (A : Type) : Type :=
| Ok (a : A)
| Panic (msg : string).
Arguments Ok {A} a.
Arguments Panic {A} msg.

Definition bind {A B : Type} (r : result A) (k : A -> result B) : result B :=
  match r with
  | Ok a => k a
  | Panic msg => Panic msg
  end.

Notation "x <- r ;; k" := (bind r (fun x => k))
  (at level 100, r at next level, right associativity, only parsing).

Definition is_Ok {A : Type} (r : result A) : Prop := exists a, r = Ok a.

(** [panic("data provides to Stream must be Array or Slice")] *)
Definition notACollection : string :=
  "data provides to Stream must be Array or Slice".

(** [panic("stream already closed")] *)
Definition pipelineClosed : string := "stream already closed".

(** The run-time panic of a nil or unmapped memory access. *)
Definition invalidMemory : string :=
  "invalid memory address or nil pointer dereference".

(** ** Go values and the store *)

Definition loc := positive.

(** A slice header: a window of [len] cells starting at [off] in the
    array stored at [ptr]. *)
Record slice : Type := Slice_ { ptr : loc; off : nat; len : nat }.

(** Kinds whose values carry no structure the engine looks at. *)
Inductive opaqueKind : Type :=
| OInt8 | OInt16 | OInt32 | OInt64
| OUint | OUint8 | OUint16 | OUint32 | OUint64 | OUintptr
| OFloat32 | OFloat64 | OComplex64 | OComplex128
| OChan | OFunc | OInterface | OMap | OStruct | OUnsafePointer.

#[local] Set Warnings "-register-all".

(** The dynamic value held by an [interface{}]. *)
Inductive value : Type :=
| VNil                              (* the nil interface *)
| VBool (b : bool)
| VInt (n : Z)
| VString (s : string)
| VArray (elems : list value)       (* an array, held by value *)
| VSlice (s : slice)                (* a reference into the store *)
| VPtr (target : option loc)        (* [None] is the nil pointer *)
| VOpaque (o : opaqueKind)
  (* the mapping a Group stage emits, as its (key, element) pairs *)
| VMap (groups : list (value * value)).

Abbreviation heap := (gmap loc value).

(** ** The fragment of package [reflect] that [setStreamData] uses.
    [reflect.ValueOf] of the nil interface is the zero [Value], of kind
    [Invalid]; a [reflect.Value] is read here as the value it wraps. *)
Module reflect.

(** The kinds of [reflect.Kind], in declaration order. *)
Inductive Kind : Type :=
| Invalid | Bool | Int | Int8 | Int16 | Int32 | Int64
| Uint | Uint8 | Uint16 | Uint32 | Uint64 | Uintptr
| Float32 | Float64 | Complex64 | Complex128
| Array | Chan | Func | Interface | Map | Ptr | Slice | String
| Struct | UnsafePointer.

Definition kindOfOpaque (o : opaqueKind) : Kind :=
  match o with
  | OInt8 => Int8 | OInt16 => Int16 | OInt32 => Int32 | OInt64 => Int64
  | OUint => Uint | OUint8 => Uint8 | OUint16 => Uint16 | OUint32 => Uint32
  | OUint64 => Uint64 | OUintptr => Uintptr
  | OFloat32 => Float32 | OFloat64 => Float64
  | OComplex64 => Complex64 | OComplex128 => Complex128
  | OChan => Chan | OFunc => Func | OInterface => Interface | OMap => Map
  | OStruct => Struct | OUnsafePointer => UnsafePointer
  end.

Definition Value_Kind (v : value) : Kind :=
  match v with
  | VNil => Invalid
  | VBool _ => Bool
  | VInt _ => Int
  | VString _ => String
  | VArray _ => Array
  | VSlice _ => Slice
  | VPtr _ => Ptr
  | VOpaque o => kindOfOpaque o
  | VMap _ => Map
  end.

(** [v.Elem()] for [v] of kind [Ptr]: the pointee, or the zero [Value]
    for the nil pointer. *)
Definition Value_Elem (h : heap) (v : value) : result value :=
  match v with
  | VPtr None => Ok VNil
  | VPtr (Some l) =>
      match h !! l with
      | Some w => Ok w
      | None => Panic invalidMemory
      end
  | _ => Panic "reflect: call of reflect.Value.Elem on non-pointer Value"
  end.

Definition Value_Len (v : value) : nat :=
  match v with
  | VArray elems => length elems
  | VSlice s => len s
  | _ => 0
  end.

(** [s[i]] for a slice header [s]. *)
Definition slice_index (h : heap) (s : slice) (i : nat) : option value :=
  if decide (i < len s) then
    match h !! ptr s with
    | Some (VArray cells) => cells !! (off s + i)
    | _ => None
    end
  else None.

Definition Value_Index (h : heap) (v : value) (i : nat) : option value :=
  match v with
  | VArray elems => elems !! i
  | VSlice s => slice_index h s i
  | _ => None
  end.

End reflect.

(** ** The sink protocol *)

(** [type sink interface]: a stage object of type [S] answers the four
    messages; each call returns the object as the call left it. *)
Class sink (S : Type) : Type := {
  begin : Z -> S -> S;
  end_ : S -> S;
  accept : value -> S -> S;
  cancellationRequested : S -> bool * S
}.

(** [type baseStage struct].  The [startStage] back-reference is the
    root of the pipeline itself: a stage is reached from its [startOp]
    through the [downStream] links. *)
Record baseStage (D : Type) : Type := BaseStage {
  downStream : option D;
  paralleled : bool
}.
Arguments BaseStage {D} downStream paralleled.
Arguments downStream {D} b.
Arguments paralleled {D} b.

Definition setNextSink {D : Type} (s : option D) (b : baseStage D) : baseStage D :=
  BaseStage s (paralleled b).

Definition getNextSink {D : Type} (b : baseStage D) : option D := downStream b.

Section BaseStage.
Context {D : Type}.

(** [func (b *baseStage) begin(size int)] *)
Definition baseStage_begin (beginD : Z -> D -> D) (size : Z)
    (b : baseStage D) : baseStage D :=
  match downStream b with
  | Some d => setNextSink (Some (beginD size d)) b
  | None => b
  end.

(** [func (b *baseStage) end()] *)
Definition baseStage_end (endD : D -> D) (b : baseStage D) : baseStage D :=
  match downStream b with
  | Some d => setNextSink (Some (endD d)) b
  | None => b
  end.

(** [func (b *baseStage) accept(t interface{})] *)
Definition baseStage_accept (acceptD : value -> D -> D) (t : value)
    (b : baseStage D) : baseStage D :=
  match downStream b with
  | Some d => setNextSink (Some (acceptD t d)) b
  | None => b
  end.

(** [func (b *baseStage) cancellationRequested() bool { return false }] *)
Definition baseStage_cancellationRequested (b : baseStage D)
    : bool * baseStage D :=
  (false, b).

(** A stage that overrides nothing. *)
#[export] Instance baseStage_sink `{!sink D} : sink (baseStage D) := {
  begin := baseStage_begin begin;
  end_ := baseStage_end end_;
  accept := baseStage_accept accept;
  cancellationRequested := baseStage_cancellationRequested
}.
End BaseStage.

(** ** The source stage *)

(** [type startOp struct { baseStage; data []interface{}; closed bool }] *)
Record startOp (S : Type) : Type := StartOp {
  base : baseStage S;
  data : slice;
  closed : bool
}.
Arguments StartOp {S} base data closed.
Arguments base {S} s.
Arguments data {S} s.
Arguments closed {S} s.

(** The nil slice of a zero [startOp]. *)
Definition nilSlice : slice := Slice_ 1%positive 0 0.

Section Source.
Context {S : Type} `{!sink S}.

(** The body of [for idx := range s.data] in [startOp.end]: [todo]
    counts the iterations left, [idx] is the loop variable. *)
Fixpoint rangeLoop (h : heap) (d : slice) (todo idx : nat) (down : S)
    : result S :=
  match todo with
  | O => Ok down
  | Datatypes.S todo' =>
      match reflect.slice_index h d idx with
      | None => Panic "index out of range"
      | Some t =>
          let down1 := accept t down in
          let (stop, down2) := cancellationRequested down1 in
          if stop then Ok down2
          else rangeLoop h d todo' (Datatypes.S idx) down2
      end
  end.

(** [func (s *startOp) end()] *)
Definition startOp_end (h : heap) (s : startOp S) : result (startOp S) :=
  if closed s then Panic pipelineClosed
  else
    match downStream (base s) with
    | None => Panic invalidMemory
    | Some down =>
        let down1 := begin (Z.of_nat (len (data s))) down in
        down2 <- rangeLoop h (data s) (len (data s)) 0 down1 ;;
        let down3 := end_ down2 in
        Ok (StartOp (setNextSink (Some down3) (base s)) (data s) (closed s))
    end.
End Source.

(** ** The input adapter *)

(** The loop [for idx := 0; idx < arrValue.Len(); idx++] of
    [setStreamData], appending [arrValue.Index(idx)] to [data]: [todo]
    counts the iterations left. *)
Fixpoint appendLoop (h : heap) (arrValue : value) (todo idx : nat)
    (acc : list value) : result (list value) :=
  match todo with
  | O => Ok acc
  | Datatypes.S todo' =>
      match reflect.Value_Index h arrValue idx with
      | None => Panic "reflect: slice index out of range"
      | Some x => appendLoop h arrValue todo' (Datatypes.S idx) (acc ++ [x])
      end
  end.

Section Adapter.
Context {S : Type}.

(** [func setStreamData(stream *startOp, data interface{}) Stream].
    [make] takes a cell the store does not use yet; the appends stay
    within its capacity, so the buffer never moves. *)
Definition setStreamData (h : heap) (stream : startOp S) (v : value)
    : result (startOp S * heap) :=
  arrValue <- match reflect.Value_Kind v with
              | reflect.Ptr => reflect.Value_Elem h v
              | _ => Ok v
              end ;;
  match reflect.Value_Kind arrValue with
  | reflect.Slice | reflect.Array =>
      let buf : loc := fresh (dom h : gset loc) in
      elems <- appendLoop h arrValue (reflect.Value_Len arrValue) 0 [] ;;
      Ok (StartOp (base stream) (Slice_ buf 0 (length elems)) (closed stream),
          <[buf := VArray elems]> h)
  | _ => Panic notACollection
  end.

(** [func New(data interface{}) Stream] *)
Definition New (h : heap) (v : value) : result (startOp S * heap) :=
  setStreamData h (StartOp (BaseStage None false) nilSlice false) v.

(** [func Of(elements ...interface{}) Stream]: inside [Of] the
    variadic parameter is the slice [elements]. *)
Definition Of (h : heap) (elements : slice) : result (startOp S * heap) :=
  New h (VSlice elements).

(** The call [Of(v0, v1, ...)]: the caller packs the arguments into a
    new slice and passes it. *)
Definition callOf (h : heap) (args : list value) : result (startOp S * heap) :=
  let l : loc := fresh (dom h : gset loc) in
  Of (<[l := VArray args]> h) (Slice_ l 0 (length args)).
End Adapter.

(** ** Stages behind the source

    [stream.go] calls [wrapSink] and the stage types ([collectOp],
    [maxOp], [firstOp], ...) but does not define them. *)

Section Stages.
(** What a callback's captured variables hold. *)
Context {Env : Type}.

(** A Go function value: its code and the variables it closes over;
    a call may update them. *)
Record closure (A B : Type) : Type := Closure {
  env : Env;
  code : Env -> A -> Env * B
}.
Arguments Closure {A B} env code.
Arguments env {A B} c.
Arguments code {A B} c.

Definition call {A B : Type} (f : closure A B) (a : A) : closure A B * B :=
  let (e, r) := code f (env f) a in (Closure e (code f), r).

(** [type MapFunc func(interface{}) interface{}] *)
Definition MapFunc : Type := closure value value.

(** [type FilterFunc func(interface{}) bool] *)
Definition FilterFunc : Type := closure value bool.

(** [type GroupFunc func(interface{}) interface{}] *)
Definition GroupFunc : Type := closure value value.

(** [type ComparatorFunc func(a interface{}, b interface{}) int] *)
Definition ComparatorFunc : Type := closure (value * value) Z.

(** Modelled from the spec: the stage types, which [stream.go] names
    but does not declare.  Each carries the local state that sections
    4.3 to 4.5 of the specification give it; fields read by
    [stream.go] ([data], [max], [min], [val]) keep their names.  [seen]
    tells the first [accept] of [Max] and [Min] from the later ones,
    [found] that [First] has stored its value.  The mapping of a Group
    stage is kept as its (key, element) pairs in arrival order: the
    group of a key is the elements paired with it.

    Not modelled: FlatMap and Sort, which poll their downstream while
    they forward; Distinct and DistinctByFunc, which need an equality
    on keys; Skip; Parallel; and the terminals ForEach, Count and
    Reduce. *)
Inductive opState : Type :=
| mapOp (mapper : MapFunc)
| filterOp (filter : FilterFunc)
| limitOp (n count : Z)
| groupOp (grouper : GroupFunc) (groups : list (value * value))
| collectOp (data : list value)
| maxOp (comparator : ComparatorFunc) (max : value) (seen : bool)
| minOp (comparator : ComparatorFunc) (min : value) (seen : bool)
| firstOp (val : value) (found : bool)
| lastOp (val : value).

(** A stage object: the embedded [baseStage] and the local state. *)
Inductive stage : Type :=
| Stage (stageBase : baseStage stage) (op : opState).

Definition stageBase (st : stage) : baseStage stage :=
  match st with Stage b _ => b end.

Definition op (st : stage) : opState :=
  match st with Stage _ o => o end.

(** The number of stages from [st] to the end of its chain. *)
Fixpoint depth (st : stage) : nat :=
  match st with
  | Stage b _ =>
      Datatypes.S (match downStream b with
                   | Some d => depth d
                   | None => 0
                   end)
  end.

(** Modelled from the spec: [begin] of the stages of sections 4.3 to
    4.5.  The collect list and the group mapping are allocated here
    (section 3, lifecycles).  Every stage passes the message on as
    [baseStage.begin] does; Filter and Group, after which the number of
    elements is no longer known, pass on the size [-1] (sections 4.1
    and 4.3). *)
Fixpoint stage_begin (size : Z) (st : stage) : stage :=
  match st with
  | Stage b o =>
      match o with
      | collectOp _ => Stage (baseStage_begin stage_begin size b) (collectOp [])
      | filterOp _ => Stage (baseStage_begin stage_begin (-1) b) o
      | groupOp grouper _ =>
          Stage (baseStage_begin stage_begin (-1) b) (groupOp grouper [])
      | _ => Stage (baseStage_begin stage_begin size b) o
      end
  end.

(** Modelled from the spec: [accept] of the stages of sections 4.3
    to 4.5.  The limit's counter only grows while it is below [n], so
    it stays within [int]. *)
Fixpoint stage_accept (t : value) (st : stage) : stage :=
  match st with
  | Stage b o =>
      match o with
      | mapOp mapper =>
          let (mapper', u) := call mapper t in
          Stage (baseStage_accept stage_accept u b) (mapOp mapper')
      | filterOp filter =>
          let (filter', keep) := call filter t in
          if keep
          then Stage (baseStage_accept stage_accept t b) (filterOp filter')
          else Stage b (filterOp filter')
      | limitOp n count =>
          if (count <? n)%Z
          then Stage (baseStage_accept stage_accept t b) (limitOp n (count + 1))
          else st
      | groupOp grouper groups =>
          let (grouper', key) := call grouper t in
          Stage b (groupOp grouper' (groups ++ [(key, t)]))
      | collectOp data => Stage b (collectOp (data ++ [t]))
      | maxOp comparator m seen =>
          if seen then
            let (comparator', c) := call comparator (t, m) in
            Stage b (maxOp comparator' (if (0 <? c)%Z then t else m) true)
          else Stage b (maxOp comparator t true)
      | minOp comparator m seen =>
          if seen then
            let (comparator', c) := call comparator (t, m) in
            Stage b (minOp comparator' (if (c <? 0)%Z then t else m) true)
          else Stage b (minOp comparator t true)
      | firstOp val found =>
          if found then st else Stage b (firstOp t true)
      | lastOp _ => Stage b (lastOp t)
      end
  end.

(** Modelled from the spec: [end] of the stages of sections 4.3 to
    4.5, for a chain of at most [fuel] stages.  A Group stage forwards
    its mapping as one value and then [end] (section 4.4); every other
    stage passes [end] on as [baseStage.end] does.  The downstream of a
    Group stage has taken a value by the time it is sent [end], so the
    recursion is on the length of the chain. *)
Fixpoint stage_end_upto (fuel : nat) (st : stage) : stage :=
  match fuel with
  | O => st
  | Datatypes.S fuel' =>
      match st with
      | Stage b o =>
          match o with
          | groupOp _ groups =>
              Stage (baseStage_end (stage_end_upto fuel')
                       (baseStage_accept stage_accept (VMap groups) b))
                    o
          | _ => Stage (baseStage_end (stage_end_upto fuel') b) o
          end
      end
  end.

(** [end] on a chain: the length of the chain is fuel enough
    ([stage_end_unfold] below gives its equation without fuel). *)
Definition stage_end (st : stage) : stage := stage_end_upto (depth st) st.

(** Modelled from the spec: a stage answers true when it, or any stage
    downstream of it, can take no more (sections 4.1 and 4.7): Limit
    after its n-th accept (section 4.3), First once it has stored a
    value (section 4.5), every stage when its downstream answers true.
    A stage without downstream has no one to ask.  [stream.go] has the
    method only on [baseStage], where it answers false; the stage types
    are taken to override it as the specification says. *)
Fixpoint stage_cancellationRequested (st : stage) : bool * stage :=
  match st with
  | Stage b o =>
      let downstream :=
        match downStream b with
        | Some d =>
            let (r, d') := stage_cancellationRequested d in
            (r, Stage (setNextSink (Some d') b) o)
        | None => (false, st)
        end in
      match o with
      | limitOp n count => if (n <=? count)%Z then (true, st) else downstream
      | firstOp _ found => (found, st)
      | _ => downstream
      end
  end.

#[export] Instance stage_sink : sink stage := {
  begin := stage_begin;
  end_ := stage_end;
  accept := stage_accept;
  cancellationRequested := stage_cancellationRequested
}.

(** *** The builder and the [Stream] methods *)

(** A [Stream] value: a stage of a pipeline, given by the pipeline's
    source and the number of [downStream] links from the source to
    the stage ([0] is the source itself).  Stages cut off from their
    pipeline by a later [wrapSink] on an ancestor have no handle. *)
Record Stream : Type := Handle {
  startStage : startOp stage;
  self : nat
}.

(** The stage [k] links below [st]. *)
Fixpoint nthStage (k : nat) (st : stage) : option stage :=
  match k with
  | O => Some st
  | Datatypes.S k' =>
      match downStream (stageBase st) with
      | Some d => nthStage k' d
      | None => None
      end
  end.

(** The stage a handle at depth [k] of pipeline [s] points to. *)
Definition stageAt (k : nat) (s : startOp stage) : option stage :=
  match k with
  | O => None
  | Datatypes.S k' =>
      match downStream (base s) with
      | Some d => nthStage k' d
      | None => None
      end
  end.

(** Modelled from the spec: the new stage of [wrapSink] (section 4.6):
    no downstream yet, the parent's parallel flag. *)
Definition newStage (parent : baseStage stage) (o : opState) : stage :=
  Stage (BaseStage None (paralleled parent)) o.

(** Sets the downstream of the stage [k] links below [st]. *)
Fixpoint attach (k : nat) (o : opState) (st : stage) : option stage :=
  match k with
  | O =>
      Some (Stage (setNextSink (Some (newStage (stageBase st) o)) (stageBase st))
                  (op st))
  | Datatypes.S k' =>
      match downStream (stageBase st) with
      | Some d =>
          match attach k' o d with
          | Some d' => Some (Stage (setNextSink (Some d') (stageBase st)) (op st))
          | None => None
          end
      | None => None
      end
  end.

(** Modelled from the spec: [wrapSink(parent, op, args...)] (section
    4.6) builds the stage for [op], gives it the parent's source and
    parallel flag, makes it the parent's downstream and returns it.
    The stage built for [op] and its arguments is [o]. *)
Definition wrapSink (b : Stream) (o : opState) : result Stream :=
  let s := startStage b in
  match self b with
  | O =>
      Ok (Handle (StartOp (setNextSink (Some (newStage (base s) o)) (base s))
                          (data s) (closed s)) 1)
  | Datatypes.S k =>
      match downStream (base s) with
      | Some d =>
          match attach k o d with
          | Some d' =>
              Ok (Handle (StartOp (setNextSink (Some d') (base s))
                                  (data s) (closed s))
                         (Datatypes.S (self b)))
          | None => Panic invalidMemory
          end
      | None => Panic invalidMemory
      end
  end.

(** Modelled from the spec: the stages [wrapSink] builds for the op
    codes [stream.go] passes it, in their initial state. *)
Definition opMapper (mapper : MapFunc) : opState := mapOp mapper.
Definition opFilter (filter : FilterFunc) : opState := filterOp filter.
Definition opLimiter (n : Z) : opState := limitOp n 0.
Definition OpGrouper (grouper : GroupFunc) : opState := groupOp grouper [].
Definition opCollector : opState := collectOp [].
Definition opMaximizer (comparator : ComparatorFunc) : opState :=
  maxOp comparator VNil false.
Definition opMinimizer (comparator : ComparatorFunc) : opState :=
  minOp comparator VNil false.
Definition opFirst : opState := firstOp VNil false.
Definition opLast : opState := lastOp VNil.

(** [func (b *baseStage) Filter(filter FilterFunc) Stream] *)
Definition Filter (filter : FilterFunc) (b : Stream) : result Stream :=
  wrapSink b (opFilter filter).

(** [func (b *baseStage) Group(grouper GroupFunc) Stream] *)
Definition Group (grouper : GroupFunc) (b : Stream) : result Stream :=
  wrapSink b (OpGrouper grouper).

(** [func (b *baseStage) Map(mapper MapFunc) Stream] *)
Definition Map (mapper : MapFunc) (b : Stream) : result Stream :=
  wrapSink b (opMapper mapper).

(** [func (b *baseStage) Limit(n int) Stream] *)
Definition Limit (n : Z) (b : Stream) : result Stream :=
  wrapSink b (opLimiter n).

(** The panic of a failed type assertion on [downStream]. *)
Definition badAssertion : string := "interface conversion".

(** The shared shape of the terminal methods: attach the terminal
    stage to [b], run [b.startStage.end()], then read a field of the
    attached stage. *)
Definition terminal {R : Type} (h : heap) (b : Stream) (o : opState)
    (read : opState -> option R) : result (R * startOp stage) :=
  downStream <- wrapSink b o ;;
  s' <- startOp_end h (startStage downStream) ;;
  match stageAt (self downStream) s' with
  | Some st =>
      match read (op st) with
      | Some r => Ok (r, s')
      | None => Panic badAssertion
      end
  | None => Panic invalidMemory
  end.

(** [func (b *baseStage) Max(comparator ComparatorFunc) interface{}] *)
Definition Max (h : heap) (comparator : ComparatorFunc) (b : Stream)
    : result (value * startOp stage) :=
  terminal h b (opMaximizer comparator)
    (fun o => match o with maxOp _ m _ => Some m | _ => None end).

(** [func (b *baseStage) Min(comparator ComparatorFunc) interface{}] *)
Definition Min (h : heap) (comparator : ComparatorFunc) (b : Stream)
    : result (value * startOp stage) :=
  terminal h b (opMinimizer comparator)
    (fun o => match o with minOp _ m _ => Some m | _ => None end).

(** [func (b *baseStage) Collect() []interface{}] *)
Definition Collect (h : heap) (b : Stream)
    : result (list value * startOp stage) :=
  terminal h b opCollector
    (fun o => match o with collectOp d => Some d | _ => None end).

(** [func (b *baseStage) First() interface{}] *)
Definition First (h : heap) (b : Stream) : result (value * startOp stage) :=
  terminal h b opFirst
    (fun o => match o with firstOp v _ => Some v | _ => None end).

(** [func (b *baseStage) Last() interface{}] *)
Definition Last (h : heap) (b : Stream) : result (value * startOp stage) :=
  terminal h b opLast
    (fun o => match o with lastOp v => Some v | _ => None end).
End Stages.

(** The types are written with the environment type they are over. *)
Arguments closure : clear implicits.
Arguments Closure {Env A B} env code.
Arguments env {Env A B} c.
Arguments code {Env A B} c.
Arguments MapFunc : clear implicits.
Arguments FilterFunc : clear implicits.
Arguments GroupFunc : clear implicits.
Arguments ComparatorFunc : clear implicits.
Arguments opState : clear implicits.
Arguments stage : clear implicits.
Arguments Stream : clear implicits.

(** ** Observing a sink *)

(** The messages a sink receives, with the answer it gave to a poll. *)
Inductive event : Type :=
| EvBegin (size : Z)
| EvAccept (t : value)
| EvCancellationRequested (answer : bool)
| EvEnd.

(** A sink that records every message on its way to [inner]. *)
Record traced (S : Type) : Type := Traced {
  log : list event;
  inner : S
}.
Arguments Traced {S} log inner.
Arguments log {S} t.
Arguments inner {S} t.

#[export] Instance traced_sink {S : Type} `{!sink S} : sink (traced S) := {
  begin size t := Traced (log t ++ [EvBegin size]) (begin size (inner t));
  end_ t := Traced (log t ++ [EvEnd]) (end_ (inner t));
  accept x t := Traced (log t ++ [EvAccept x]) (accept x (inner t));
  cancellationRequested t :=
    let (r, i) := cancellationRequested (inner t) in
    (r, Traced (log t ++ [EvCancellationRequested r]) i)
}.

(** ** What a container holds *)

(** The elements of a slice, in index order; [None] when the store does
    not back the whole window. *)
Definition sliceElems (h : heap) (s : slice) : option (list value) :=
  mapM (reflect.slice_index h s) (seq 0 (len s)).

(** The elements of an array or slice value, in index order. *)
Definition elemsOf (h : heap) (v : value) : option (list value) :=
  mapM (reflect.Value_Index h v) (seq 0 (reflect.Value_Len v)).

(** The value [setStreamData] inspects: [v] itself, or what it points
    to; the zero [Value] for the nil pointer. *)
Definition target (h : heap) (v : value) : option value :=
  match v with
  | VPtr None => Some VNil
  | VPtr (Some l) => h !! l
  | _ => Some v
  end.

Definition isCollectionKind (k : reflect.Kind) : bool :=
  match k with
  | reflect.Slice | reflect.Array => true
  | _ => false
  end.

(** The elements of the ordered container that [v] is or points to. *)
Definition collection (h : heap) (v : value) : option (list value) :=
  match target h v with
  | Some w =>
      if isCollectionKind (reflect.Value_Kind w) then elemsOf h w else None
  | None => None
  end.

(** [b.setNextSink(down)] on the source. *)
Definition startOp_setNextSink {S : Type} (down : S) (s : startOp S) : startOp S :=
  StartOp (setNextSink (Some down) (base s)) (data s) (closed s).

(** The drive loop of [startOp.end] over the elements themselves. *)
Fixpoint deliver {S : Type} `{!sink S} (xs : list value) (down : S) : S :=
  match xs with
  | [] => down
  | t :: xs' =>
      let down1 := accept t down in
      let (stop, down2) := cancellationRequested down1 in
      if stop then down2 else deliver xs' down2
  end.

(** One [accept] and the poll after it, per delivered element. *)
Fixpoint rounds (xs : list value) (answers : list bool) : list event :=
  match xs, answers with
  | t :: xs', a :: answers' =>
      EvAccept t :: EvCancellationRequested a :: rounds xs' answers'
  | _, _ => []
  end.

(** The number of [accept] messages in a log. *)
Fixpoint accepts (l : list event) : nat :=
  match l with
  | [] => 0
  | EvAccept _ :: l' => Datatypes.S (accepts l')
  | _ :: l' => accepts l'
  end.

(** ** Reading results, logs and pipelines *)

(** What a call returned, with [f] applied to it. *)
Definition mapResult {A B : Type} (f : A -> B) (r : result A) : result B :=
  match r with
  | Ok a => Ok (f a)
  | Panic msg => Panic msg
  end.

(** The log of the sink attached to a source. *)
Definition sourceLog {S : Type} (s : startOp (traced S)) : list event :=
  match downStream (base s) with
  | Some t => log t
  | None => []
  end.

(** Whether the stage a handle names is still linked to its source. *)
Definition attached {Env : Type} (b : Stream Env) : bool :=
  match self b with
  | O => true
  | Datatypes.S _ =>
      match stageAt (self b) (startStage b) with
      | Some _ => true
      | None => false
      end
  end.

(** The local state of a stage once [begin] has reached it. *)
Definition begun {Env : Type} (o : opState Env) : opState Env :=
  match o with
  | collectOp _ => collectOp []
  | groupOp grouper _ => groupOp grouper []
  | _ => o
  end.

(** Whether none of the first [k] stages of the chain from [st] is a
    Group stage. *)
Fixpoint noGroup {Env : Type} (k : nat) (st : stage Env) : bool :=
  match k with
  | O => true
  | Datatypes.S k' =>
      match op st with
      | groupOp _ _ => false
      | _ =>
          match downStream (stageBase st) with
          | Some d => noGroup k' d
          | None => true
          end
      end
  end.

(** Whether no Group stage stands between the source and the stage a
    handle names, that stage included. *)
Definition groupFree {Env : Type} (b : Stream Env) : bool :=
  match downStream (base (startStage b)) with
  | Some d => noGroup (self b) d
  | None => true
  end.

(** A mapper that applies [f] and counts its calls in the variable it
    closes over. *)
Definition counting (f : value -> value) : MapFunc nat :=
  Closure 0 (fun calls v => (Datatypes.S calls, f v)).

(** How often the mapper of the stage right behind the source has run. *)
Definition mapperCalls (s : startOp (stage nat)) : option nat :=
  match stageAt 1 s with
  | Some st =>
      match op st with
      | mapOp mapper => Some (env mapper)
      | _ => None
      end
  | None => None
  end.

(** A filter that applies [keep] and counts its calls in the variable
    it closes over. *)
Definition countingFilter (keep : value -> bool) : FilterFunc nat :=
  Closure 0 (fun calls v => (Datatypes.S calls, keep v)).

(** How often the filter of the stage right behind the source has run. *)
Definition filterCalls (s : startOp (stage nat)) : option nat :=
  match stageAt 1 s with
  | Some st =>
      match op st with
      | filterOp filter => Some (env filter)
      | _ => None
      end
  | None => None
  end.

(** [New(v).Filter(filter).Limit(n).Collect()]: the collected list and
    the pipeline after the drive. *)
Definition filterLimitCollect (h : heap) (v : value) (filter : FilterFunc nat)
    (n : Z) : result (list value * startOp (stage nat)) :=
  r <- New h v ;;
  b1 <- Filter filter (Handle (fst r) 0) ;;
  b2 <- Limit n b1 ;;
  Collect (snd r) b2.

(** Map stages for the functions [fs], outermost first, in front of
    [down]; each mapper counts its calls and has run [calls] times. *)
Fixpoint mapStages (fs : list (value -> value)) (calls : nat) (p : bool)
    (down : stage nat) : stage nat :=
  match fs with
  | [] => down
  | f :: fs' =>
      Stage (BaseStage (Some (mapStages fs' calls p down)) p)
            (mapOp (Closure calls (fun k v => (Datatypes.S k, f v))))
  end.

(** [New(v).Map(mapper).Limit(n).Collect()]: the collected list and the
    pipeline after the drive. *)
Definition mapLimitCollect (h : heap) (v : value) (mapper : MapFunc nat) (n : Z)
    : result (list value * startOp (stage nat)) :=
  r <- New h v ;;
  b1 <- Map mapper (Handle (fst r) 0) ;;
  b2 <- Limit n b1 ;;
  Collect (snd r) b2.

(** A sink that takes nothing and always asks for cancellation. *)
Inductive saturated : Type := Saturated.

#[export] Instance saturated_sink : sink saturated := {
  begin _ s := s;
  end_ s := s;
  accept _ s := s;
  cancellationRequested s := (true, s)
}.

(** ** Sample inputs *)

(** A store with the two-element array [[1, 2]] at cell 1 and, at cell
    2, a slice variable over the whole of it. *)
Definition storeWithSlice : heap :=
  <[2%positive := VSlice (Slice_ 1%positive 0 2)]>
    {[1%positive := VArray [VInt 1; VInt 2]]}.

Definition wholeSlice : slice := Slice_ 1%positive 0 2.

(** A store with the array [[1, 2, 3, 4, 5]] at cell 1. *)
Definition storeWithFive : heap :=
  {[1%positive := VArray [VInt 1; VInt 2; VInt 3; VInt 4; VInt 5]]}.

Definition fiveSlice : slice := Slice_ 1%positive 0 5.

(** A recording sink over a stage that overrides nothing and has no
    downstream of its own. *)
Definition probe : traced (baseStage (stage unit)) :=
  Traced [] (BaseStage None false).

(** [New(xs)], then two drives of the source with [probe] attached:
    the [closed] flag and the log after the second drive. *)
Definition driveTwice : result (bool * list event) :=
  r <- New storeWithSlice (VSlice wholeSlice) ;;
  s1 <- startOp_end (snd r) (startOp_setNextSink probe (fst r)) ;;
  s2 <- startOp_end (snd r) s1 ;;
  Ok (closed s2, sourceLog s2).

(** [s := New(xs); s.Collect(); s.Collect()]: the two results. *)
Definition collectTwice : result (list value * list value) :=
  r <- New (S:=stage unit) storeWithSlice (VSlice wholeSlice) ;;
  c1 <- Collect (snd r) (Handle (fst r) 0) ;;
  c2 <- Collect (snd r) (Handle (snd c1) 0) ;;
  Ok (fst c1, fst c2).

(** A source over [xs] with a recording [Limit(1)] stage attached. *)
Definition limitedSource : startOp (traced (stage unit)) :=
  StartOp
    (BaseStage (Some (Traced [] (Stage (BaseStage None false) (opLimiter 1))))
               false)
    wholeSlice false.






(** ** Chains of stages that override nothing *)

(** The type of [length flags] nested [baseStage]s in front of a sink
    of type [D]; [flags] are their [paralleled] fields, outermost
    first. *)
Fixpoint defaults (flags : list bool) (D : Type) : Type :=
  match flags with
  | [] => D
  | _ :: flags' => baseStage (defaults flags' D)
  end.

(** Each stage of the chain answers with the methods of [baseStage]. *)
Fixpoint defaults_sink (flags : list bool) (D : Type) `{!sink D}
    : sink (defaults flags D) :=
  match flags with
  | [] => _
  | _ :: flags' => @baseStage_sink _ (defaults_sink flags' D)
  end.

(** The chain itself, with [d] as its last downstream. *)
Fixpoint link (flags : list bool) {D : Type} (d : D) : defaults flags D :=
  match flags with
  | [] => d
  | p :: flags' => BaseStage (Some (link flags' d)) p
  end.

(** [accept] of every element in turn, with no poll in between. *)
Definition feed {D : Type} `{!sink D} (xs : list value) (d : D) : D :=
  foldl (fun d' t => accept t d') d xs.

(** A slice over the three middle cells of the array of
    [storeWithFive]. *)
Definition middleSlice : slice := Slice_ 1%positive 1 3.

(** A store with a slice variable at cell 2 and, at cell 3, a pointer
    variable that points to it. *)
Definition storeWithPointer : heap :=
  <[3%positive := VPtr (Some 2%positive)]> storeWithSlice.

(** A chain of stages that override nothing, the last of which has no
    downstream. *)
Fixpoint openChain (p : bool) (flags : list bool) (D : Type)
    : defaults (p :: flags) D :=
  match flags as f return defaults (p :: f) D with
  | [] => BaseStage None p
  | q :: flags' => BaseStage (Some (openChain q flags' D)) p
  end.

(** * Properties *)

(** Unfolds the inherited forwarders of [baseStage]. *)
Ltac base_simpl :=
  repeat (progress
            (simpl;
             unfold baseStage_begin, baseStage_end, baseStage_accept,
               setNextSink;
             simpl)).

(** ** The loops, read as functions of the elements *)

Lemma appendLoop_mapM (h : heap) (v : value) (todo idx : nat) (acc : list value) :
  appendLoop h v todo idx acc =
  match mapM (reflect.Value_Index h v) (seq idx todo) with
  | Some ys => Ok (acc ++ ys)
  | None => Panic "reflect: slice index out of range"
  end.
Proof.
  revert idx acc. induction todo as [|todo IH]; intros idx acc; simpl.
  - by rewrite app_nil_r.
  - destruct (reflect.Value_Index h v idx) as [x|]; simpl; [|done].
    rewrite IH.
    destruct (mapM (reflect.Value_Index h v) (seq (Datatypes.S idx) todo)); simpl; [|done].
    by rewrite <- app_assoc.
Qed.

Lemma mapM_length_seq {A : Type} (f : nat -> option A) (idx n : nat) (ys : list A) :
  mapM f (seq idx n) = Some ys -> length ys = n.
Proof.
  revert idx ys. induction n as [|n IH]; intros idx ys; simpl.
  - by intros [= <-].
  - destruct (f idx); simpl; [|done].
    destruct (mapM f (seq (Datatypes.S idx) n)) eqn:E; simpl; [|done].
    intros [= <-]. simpl. f_equal. by eapply IH.
Qed.

Lemma sliceElems_length (h : heap) (s : slice) (xs : list value) :
  sliceElems h s = Some xs -> length xs = len s.
Proof. apply mapM_length_seq. Qed.

Section LoopFacts.
Context {S : Type} `{!sink S}.

Lemma rangeLoop_deliver (h : heap) (d : slice) (todo idx : nat)
    (xs : list value) (down : S) :
  mapM (reflect.slice_index h d) (seq idx todo) = Some xs ->
  rangeLoop h d todo idx down = Ok (deliver xs down).
Proof.
  revert idx xs down. induction todo as [|todo IH]; intros idx xs down; simpl.
  - by intros [= <-].
  - destruct (reflect.slice_index h d idx) as [t|]; simpl; [|done].
    destruct (mapM (reflect.slice_index h d) (seq (Datatypes.S idx) todo))
      as [ys|] eqn:E; simpl; [|done].
    intros [= <-]. simpl.
    destruct (cancellationRequested (accept t down)) as [[] down2]; [done|].
    by apply IH.
Qed.

(** [startOp.end] on an open source with a downstream. *)
Lemma startOp_end_open (h : heap) (s : startOp S) (down : S) (xs : list value) :
  closed s = false ->
  downStream (base s) = Some down ->
  sliceElems h (data s) = Some xs ->
  startOp_end h s =
  Ok (startOp_setNextSink
        (end_ (deliver xs (begin (Z.of_nat (length xs)) down))) s).
Proof.
  intros Hc Hd Hx. unfold startOp_end, startOp_setNextSink. rewrite Hc, Hd.
  rewrite (rangeLoop_deliver h (data s) (len (data s)) 0 xs _ Hx).
  simpl. by rewrite (sliceElems_length _ _ _ Hx).
Qed.

(** A drive never assigns [closed]. *)
Lemma startOp_end_closed (h : heap) (s s' : startOp S) :
  startOp_end h s = Ok s' -> closed s = false /\ closed s' = false.
Proof.
  unfold startOp_end. destruct (closed s) eqn:Hc; [done|].
  destruct (downStream (base s)); [|done].
  destruct (rangeLoop _ _ _ _ _); simpl; [|done].
  by intros [= <-].
Qed.
End LoopFacts.

(** ** The input adapter *)

Lemma mapM_seq_lookup {A : Type} (f : nat -> option A) (l : list A) (n idx k : nat) :
  (forall i, i < n -> f (idx + i) = l !! (k + i)) ->
  k + n <= length l ->
  mapM f (seq idx n) = Some (take n (drop k l)).
Proof.
  revert idx k. induction n as [|n IH]; intros idx k Hf Hlen; simpl.
  - by rewrite take_0.
  - destruct (lookup_lt_is_Some_2 l k) as [x Hx]; [lia|].
    pose proof (Hf 0 ltac:(lia)) as H0. rewrite !Nat.add_0_r in H0.
    rewrite H0, Hx. simpl.
    rewrite (IH (Datatypes.S idx) (Datatypes.S k)); simpl.
    + by rewrite (drop_S l x k Hx).
    + intros i Hi. specialize (Hf (Datatypes.S i) ltac:(lia)).
      by rewrite !Nat.add_succ_r in Hf.
    + lia.
Qed.

(** An array value holds its elements. *)
Lemma elemsOf_array (h : heap) (elems : list value) :
  elemsOf h (VArray elems) = Some elems.
Proof.
  unfold elemsOf. simpl.
  rewrite (mapM_seq_lookup _ elems _ 0 0); [|done|simpl; lia].
  by rewrite drop_0, firstn_all.
Qed.

(** A slice holds the window of its backing array. *)
Lemma sliceElems_backed (h : heap) (s : slice) (cells : list value) :
  h !! ptr s = Some (VArray cells) ->
  off s + len s <= length cells ->
  sliceElems h s = Some (take (len s) (drop (off s) cells)).
Proof.
  intros Hb Hlen. unfold sliceElems.
  apply mapM_seq_lookup; [|done].
  intros i Hi. unfold reflect.slice_index. simpl.
  rewrite decide_True by done. by rewrite Hb.
Qed.

Lemma elemsOf_slice (h : heap) (s : slice) :
  elemsOf h (VSlice s) = sliceElems h s.
Proof. reflexivity. Qed.

(** The buffer [setStreamData] fills holds the copied elements. *)
Lemma sliceElems_buffer (h : heap) (buf : loc) (xs : list value) :
  h !! buf = Some (VArray xs) ->
  sliceElems h (Slice_ buf 0 (length xs)) = Some xs.
Proof.
  intros Hb.
  rewrite (sliceElems_backed h _ xs); simpl; [|done|lia].
  by rewrite drop_0, firstn_all.
Qed.

Lemma arrValue_target (h : heap) (v : value) :
  match reflect.Value_Kind v with
  | reflect.Ptr => reflect.Value_Elem h v
  | _ => Ok v
  end =
  match target h v with
  | Some w => Ok w
  | None => Panic invalidMemory
  end.
Proof.
  destruct v as [|b|n|str|elems|sl|[l|]|o|m]; simpl; try done.
  by destruct o.
Qed.

Section AdapterFacts.
Context {S : Type}.

(** What [setStreamData] does, case by case. *)
Lemma setStreamData_cases (h : heap) (stream : startOp S) (v : value) :
  setStreamData h stream v =
  match target h v with
  | None => Panic invalidMemory
  | Some w =>
      if isCollectionKind (reflect.Value_Kind w) then
        match elemsOf h w with
        | Some xs =>
            Ok (StartOp (base stream)
                  (Slice_ (fresh (dom h : gset loc)) 0 (length xs))
                  (closed stream),
                <[fresh (dom h : gset loc) := VArray xs]> h)
        | None => Panic "reflect: slice index out of range"
        end
      else Panic notACollection
  end.
Proof.
  unfold setStreamData. rewrite arrValue_target.
  destruct (target h v) as [w|]; simpl; [|done].
  destruct (reflect.Value_Kind w) eqn:Hk; simpl; try done.
  all: rewrite appendLoop_mapM; fold (elemsOf h w);
    by destruct (elemsOf h w).
Qed.

(** [New] on a container: the source it builds and the store it leaves. *)
Lemma New_collection (h : heap) (v : value) (xs : list value) :
  collection h v = Some xs ->
  New (S:=S) h v =
  Ok (StartOp (BaseStage None false)
        (Slice_ (fresh (dom h : gset loc)) 0 (length xs)) false,
      <[fresh (dom h : gset loc) := VArray xs]> h).
Proof.
  unfold collection, New. rewrite setStreamData_cases.
  destruct (target h v) as [w|]; [|done].
  destruct (isCollectionKind _); [|done].
  by intros ->.
Qed.

Lemma New_Ok_inv (h h' : heap) (v : value) (s : startOp S) :
  New h v = Ok (s, h') ->
  exists xs, collection h v = Some xs /\
    s = StartOp (BaseStage None false)
          (Slice_ (fresh (dom h : gset loc)) 0 (length xs)) false /\
    h' = <[fresh (dom h : gset loc) := VArray xs]> h.
Proof.
  unfold collection, New. rewrite setStreamData_cases.
  destruct (target h v) as [w|]; [|done].
  destruct (isCollectionKind _); [|done].
  destruct (elemsOf h w) as [xs|]; [|done].
  intros [= <- <-]. by exists xs.
Qed.

Lemma New_fresh_buffer (h : heap) : h !! fresh (dom h : gset loc) = None.
Proof. apply not_elem_of_dom, is_fresh. Qed.
End AdapterFacts.

Lemma is_Ok_Ok {A : Type} (a : A) : is_Ok (Ok a).
Proof. by exists a. Qed.

Lemma is_Ok_Panic {A : Type} (msg : string) : ~ is_Ok (@Panic A msg).
Proof. by intros [a Ha]. Qed.

Section AdapterTheorems.
Context {S : Type}.

(** C6, as amended.  [New v] returns a source exactly when [v] is an
    array or slice, or a non-nil pointer to one; it panics with "data
    provides to Stream must be Array or Slice" exactly when [v], or
    for a pointer what it points to (nothing, for the nil pointer),
    is of any other kind. *)
Theorem New_succeeds_iff (h : heap) (v : value) :
  (is_Ok (New (S:=S) h v) <-> is_Some (collection h v)) /\
  (New (S:=S) h v = Panic notACollection <->
   exists w, target h v = Some w /\
             isCollectionKind (reflect.Value_Kind w) = false).
Proof.
  unfold New, collection. rewrite setStreamData_cases.
  destruct (target h v) as [w|].
  - destruct (isCollectionKind (reflect.Value_Kind w)) eqn:Hk.
    + destruct (elemsOf h w) as [xs|]; split; split.
      * intros _. by exists xs.
      * intros _. apply is_Ok_Ok.
      * done.
      * intros (w' & [= <-] & Hk'). congruence.
      * intros H. by apply is_Ok_Panic in H.
      * by intros [xs Hx].
      * done.
      * intros (w' & [= <-] & Hk'). congruence.
    + split; split.
      * intros H. by apply is_Ok_Panic in H.
      * by intros [xs Hx].
      * intros _. by exists w.
      * done.
  - split; split.
    + intros H. by apply is_Ok_Panic in H.
    + by intros [xs Hx].
    + done.
    + by intros (w & Hw & _).
Qed.

(** C9.  [New] accepts a pointer to an array or slice: it unwraps the
    pointer before it looks at the kind, so for an array or slice [xs]
    stored at [l] and holding [elems], [New(&xs)] returns a source, the
    very source and store that [New(xs)] returns, and that source holds
    [elems]. *)
Theorem New_pointer_same_stream (h : heap) (l : loc) (xs : value)
    (elems : list value) :
  h !! l = Some xs ->
  isCollectionKind (reflect.Value_Kind xs) = true ->
  elemsOf h xs = Some elems ->
  exists (s : startOp S) h',
    New h (VPtr (Some l)) = Ok (s, h') /\
    New h xs = Ok (s, h') /\
    sliceElems h' (data s) = Some elems /\
    closed s = false.
Proof.
  intros Hl Hk He.
  assert (collection h (VPtr (Some l)) = Some elems) as Hp.
  { unfold collection. simpl. by rewrite Hl, Hk. }
  assert (collection h xs = Some elems) as Hx.
  { unfold collection.
    assert (target h xs = Some xs) as ->
      by (by destruct xs as [|b|n|str|es|sl|p|o|m]).
    by rewrite Hk. }
  rewrite (New_collection _ _ _ Hp), (New_collection _ _ _ Hx).
  eexists _, _. split; [reflexivity|]. split; [reflexivity|]. simpl.
  split; [|done]. apply sliceElems_buffer. by rewrite lookup_insert_eq.
Qed.
End AdapterTheorems.

(** C6, counterexample: a pointer is neither an array nor a slice, yet
    [New] of a pointer to a slice variable returns a source. *)
Lemma New_accepts_pointer_to_slice :
  reflect.Value_Kind (VPtr (Some 2%positive)) = reflect.Ptr /\
  isCollectionKind (reflect.Value_Kind (VPtr (Some 2%positive))) = false /\
  is_Ok (New (S:=stage unit) storeWithSlice (VPtr (Some 2%positive))) /\
  New (S:=stage unit) storeWithSlice (VPtr (Some 2%positive))
    <> Panic notACollection.
Proof.
  split; [done|]. split; [done|].
  rewrite (New_collection _ _ [VInt 1; VInt 2]) by reflexivity.
  split; [apply is_Ok_Ok | done].
Qed.

Lemma New_pointer_same_stream_witness :
  exists (s : startOp (stage unit)) h',
    New storeWithSlice (VPtr (Some 2%positive)) = Ok (s, h') /\
    New storeWithSlice (VSlice wholeSlice) = Ok (s, h') /\
    sliceElems h' (data s) = Some [VInt 1; VInt 2] /\
    closed s = false.
Proof.
  apply (New_pointer_same_stream storeWithSlice 2%positive (VSlice wholeSlice)
           [VInt 1; VInt 2]);
    reflexivity.
Defined.

(** ** The source never reads the caller's container again *)

Section Frame.
Context {S : Type} `{!sink S}.

Lemma slice_index_ext (h1 h2 : heap) (d : slice) (i : nat) :
  h1 !! ptr d = h2 !! ptr d ->
  reflect.slice_index h1 d i = reflect.slice_index h2 d i.
Proof. intros E. unfold reflect.slice_index. by rewrite E. Qed.

Lemma rangeLoop_ext (h1 h2 : heap) (d : slice) (todo idx : nat) (down : S) :
  h1 !! ptr d = h2 !! ptr d ->
  rangeLoop h1 d todo idx down = rangeLoop h2 d todo idx down.
Proof.
  intros E. revert idx down.
  induction todo as [|todo IH]; intros idx down; simpl; [done|].
  rewrite (slice_index_ext h1 h2 d idx E).
  destruct (reflect.slice_index h2 d idx) as [t|]; [|done].
  destruct (cancellationRequested (accept t down)) as [[] down2]; [done|].
  apply IH.
Qed.

Lemma startOp_end_ext (h1 h2 : heap) (s : startOp S) :
  h1 !! ptr (data s) = h2 !! ptr (data s) ->
  startOp_end h1 s = startOp_end h2 s.
Proof.
  intros E. unfold startOp_end.
  destruct (closed s); [done|].
  destruct (downStream (base s)); [|done].
  by rewrite (rangeLoop_ext h1 h2 _ _ _ _ E).
Qed.

(** C10.  [New] copies the elements into a buffer the store did not
    hold before and changes no cell that existed; its source reads
    that buffer only, so whatever is done afterwards to the cells that
    existed before [New] (the caller's container among them), a drive
    delivers the elements as they were at construction. *)
Theorem New_copies_into_fresh_buffer (h h' : heap) (v : value) (s : startOp S) :
  New h v = Ok (s, h') ->
  h !! ptr (data s) = None /\
  (forall l, is_Some (h !! l) -> h' !! l = h !! l) /\
  (exists xs, collection h v = Some xs /\
     forall h2 : heap,
       (forall l, h !! l = None -> h2 !! l = h' !! l) ->
       sliceElems h2 (data s) = Some xs /\
       forall s1 : startOp S,
         data s1 = data s -> startOp_end h2 s1 = startOp_end h' s1).
Proof.
  intros HN. destruct (New_Ok_inv _ _ _ _ HN) as (xs & Hc & -> & ->). simpl.
  pose proof (New_fresh_buffer h) as Hf.
  split; [done|]. split.
  - intros l [w Hw]. rewrite lookup_insert_ne; [done|]. congruence.
  - exists xs. split; [done|]. intros h2 Hagree.
    pose proof (Hagree _ Hf) as Hb. rewrite lookup_insert_eq in Hb.
    split; [by apply sliceElems_buffer|].
    intros s1 Hd. apply startOp_end_ext. rewrite Hd. simpl.
    by rewrite Hb, lookup_insert_eq.
Qed.

(** C8.  [Of] is [New] on its variadic slice, and the source built by
    the call [Of(v0, v1, ...)] cannot be told from the one [New]
    builds from any slice holding [v0, v1, ...]: same stage fields,
    same elements, and with any sink attached the same state after a
    drive, which is all a terminal operation reads. *)
Theorem Of_equivalent_to_New (h1 h2 : heap) (args : list value) (xs : slice) :
  sliceElems h2 xs = Some args ->
  (forall h elements, Of (S:=S) h elements = New h (VSlice elements)) /\
  exists s1 h1' s2 h2',
    callOf h1 args = Ok (s1, h1') /\
    New h2 (VSlice xs) = Ok (s2, h2') /\
    base s1 = base s2 /\ closed s1 = closed s2 /\
    sliceElems h1' (data s1) = Some args /\
    sliceElems h2' (data s2) = Some args /\
    forall down : S,
      mapResult base (startOp_end h1' (startOp_setNextSink down s1)) =
      mapResult base (startOp_end h2' (startOp_setNextSink down s2)).
Proof.
  intros Hx. split; [done|].
  set (l := fresh (dom h1 : gset loc)).
  assert (collection (<[l := VArray args]> h1)
            (VSlice (Slice_ l 0 (length args))) = Some args) as Hc1.
  { unfold collection. simpl. rewrite elemsOf_slice.
    apply sliceElems_buffer. by rewrite lookup_insert_eq. }
  assert (collection h2 (VSlice xs) = Some args) as Hc2 by done.
  unfold callOf, Of. fold l.
  rewrite (New_collection _ _ _ Hc1), (New_collection _ _ _ Hc2).
  do 4 eexists. split; [done|]. split; [done|]. simpl.
  split; [done|]. split; [done|].
  assert (forall h : heap,
    sliceElems (<[fresh (dom h : gset loc) := VArray args]> h)
      (Slice_ (fresh (dom h : gset loc)) 0 (length args)) = Some args) as Hb.
  { intros h. apply sliceElems_buffer. by rewrite lookup_insert_eq. }
  split; [apply Hb|]. split; [apply Hb|].
  intros down.
  by rewrite !(startOp_end_open _ _ down args).
Qed.
End Frame.

Lemma New_copies_into_fresh_buffer_witness :
  storeWithSlice !! 3%positive = None /\
  exists xs, collection storeWithSlice (VSlice wholeSlice) = Some xs /\
    forall h2 : heap,
      (forall l, storeWithSlice !! l = None ->
         h2 !! l = (<[3%positive := VArray [VInt 1; VInt 2]]> storeWithSlice) !! l) ->
      sliceElems h2 (Slice_ 3%positive 0 2) = Some xs.
Proof.
  destruct (New_copies_into_fresh_buffer (S:=stage unit) storeWithSlice
              (<[3%positive := VArray [VInt 1; VInt 2]]> storeWithSlice)
              (VSlice wholeSlice)
              (StartOp (BaseStage None false) (Slice_ 3%positive 0 2) false))
    as (Hfresh & _ & xs & Hc & Hlater).
  - reflexivity.
  - split; [exact Hfresh|]. exists xs. split; [exact Hc|].
    intros h2 Hagree. exact (proj1 (Hlater h2 Hagree)).
Defined.

Lemma Of_equivalent_to_New_witness :
  exists (s1 : startOp (stage unit)) h1' s2 h2',
    callOf ∅ [VInt 1; VInt 2] = Ok (s1, h1') /\
    New storeWithSlice (VSlice wholeSlice) = Ok (s2, h2') /\
    base s1 = base s2 /\ closed s1 = closed s2 /\
    sliceElems h1' (data s1) = Some [VInt 1; VInt 2] /\
    sliceElems h2' (data s2) = Some [VInt 1; VInt 2] /\
    forall down : stage unit,
      mapResult base (startOp_end h1' (startOp_setNextSink down s1)) =
      mapResult base (startOp_end h2' (startOp_setNextSink down s2)).
Proof.
  apply (Of_equivalent_to_New (S:=stage unit) ∅ storeWithSlice
           [VInt 1; VInt 2] wholeSlice).
  reflexivity.
Defined.

(** ** The drive, as its downstream sees it *)

Lemma accepts_app (l1 l2 : list event) :
  accepts (l1 ++ l2) = accepts l1 + accepts l2.
Proof.
  induction l1 as [|e l1 IH]; simpl; [done|].
  destruct e; simpl; by rewrite ?IH.
Qed.

Section Protocol.
Context {S : Type} `{!sink S}.

(** The messages of the drive loop, as a recording sink logs them:
    an [accept] and a poll for each of the first [k] elements, every
    poll but the last answered false, and [k] short of the input only
    if the last poll was answered true.  The sink under the recorder
    goes through the same calls as it would without it. *)
Lemma deliver_traced (xs : list value) (d : traced S) :
  exists k answers,
    log (deliver xs d) = log d ++ rounds (take k xs) answers /\
    inner (deliver xs d) = deliver xs (inner d) /\
    length answers = k /\ k <= length xs /\
    (forall i, Datatypes.S i < k -> answers !! i = Some false) /\
    (k < length xs -> answers !! (k - 1) = Some true).
Proof.
  revert d. induction xs as [|t xs IH]; intros d.
  - exists 0, []. simpl. rewrite app_nil_r.
    repeat split; try done; lia.
  - simpl.
    destruct (cancellationRequested (accept t (inner d))) as [[] i] eqn:E.
    + exists 1, [true]. simpl. rewrite <- app_assoc. simpl.
      repeat split; try done; try lia.
    + destruct (IH (Traced ((log d ++ [EvAccept t]) ++ [EvCancellationRequested false]) i))
        as (k & answers & Hlog & Hin & Hlen & Hk & Hfalse & Hlast).
      exists (Datatypes.S k), (false :: answers).
      split; [rewrite Hlog; simpl; by rewrite <- !app_assoc|].
      split; [exact Hin|].
      split; [simpl; lia|]. split; [simpl; lia|]. split.
      * intros [|j] Hj; simpl; [done|]. apply Hfalse. lia.
      * simpl. intros Hlt. specialize (Hlast ltac:(lia)).
        rewrite Nat.sub_0_r.
        destruct k as [|k]; simpl in *;
          [by destruct answers | by rewrite Nat.sub_0_r in Hlast].
Qed.

(** Recording changes nothing for the sink that is recorded. *)
Lemma startOp_end_traced (h : heap) (s : startOp S) (down : S)
    (l : list event) (xs : list value) :
  closed s = false ->
  downStream (base s) = Some down ->
  sliceElems h (data s) = Some xs ->
  exists s1 s2 t,
    startOp_end h s = Ok s1 /\
    startOp_end h (StartOp (BaseStage (Some (Traced l down)) (paralleled (base s)))
                           (data s) (closed s)) = Ok s2 /\
    downStream (base s2) = Some t /\
    downStream (base s1) = Some (inner t).
Proof.
  intros Hc Hd Hx.
  rewrite (startOp_end_open h s down xs Hc Hd Hx).
  erewrite startOp_end_open; [| exact Hc | reflexivity | exact Hx].
  eexists _, _, _. split; [reflexivity|]. split; [reflexivity|].
  split; [reflexivity|]. simpl.
  destruct (deliver_traced xs (Traced (l ++ [EvBegin (Z.of_nat (length xs))])
                                 (begin (Z.of_nat (length xs)) down)))
    as (k & answers & _ & Hin & _).
  simpl in Hin. by rewrite Hin.
Qed.

(** C4.  On an open source the drive sends [begin(len(data))], then
    for the elements in index order an [accept] followed by a
    [cancellationRequested] poll, stopping after the first poll
    answered true, and then [end]; no other [begin] or [end] is sent. *)
Theorem startOp_end_protocol (h : heap) (s : startOp (traced S))
    (down : traced S) (xs : list value) :
  closed s = false ->
  downStream (base s) = Some down ->
  sliceElems h (data s) = Some xs ->
  exists s' k answers,
    startOp_end h s = Ok s' /\
    sourceLog s' =
      log down ++ EvBegin (Z.of_nat (len (data s)))
        :: rounds (take k xs) answers ++ [EvEnd] /\
    length answers = k /\ k <= length xs /\
    (forall i, Datatypes.S i < k -> answers !! i = Some false) /\
    (k < length xs -> answers !! (k - 1) = Some true).
Proof.
  intros Hc Hd Hx.
  rewrite <- (sliceElems_length _ _ _ Hx).
  rewrite (startOp_end_open h s down xs Hc Hd Hx).
  destruct (deliver_traced xs (begin (Z.of_nat (length xs)) down))
    as (k & answers & Hlog & _ & Hlen & Hk & Hfalse & Hlast).
  exists (startOp_setNextSink
            (end_ (deliver xs (begin (Z.of_nat (length xs)) down))) s),
    k, answers.
  split; [done|]. split; [|done].
  unfold sourceLog. simpl in Hlog |- *. rewrite Hlog.
  by rewrite <- !app_assoc.
Qed.

(** Through a stage that overrides nothing the source never sees a
    request to stop: every element is delivered. *)
Lemma deliver_baseStage_all (xs : list value) (l : list event)
    (b : baseStage S) :
  accepts (log (deliver xs (Traced l b))) = accepts l + length xs.
Proof.
  revert l b. induction xs as [|t xs IH]; intros l b; simpl; [lia|].
  rewrite IH, !accepts_app. simpl. lia.
Qed.

(** C2, as amended.  The inherited [cancellationRequested] answers
    false and leaves the stage as it was, whatever sink is downstream
    and whatever that sink would answer; a source driving such a stage
    therefore delivers every element. *)
Theorem baseStage_never_cancels (b : baseStage S) (xs : list value)
    (l : list event) :
  cancellationRequested b = (false, b) /\
  accepts (log (deliver xs (Traced l b))) = accepts l + length xs.
Proof. split; [reflexivity | apply deliver_baseStage_all]. Qed.

(** A drive leaves the source open: it can be driven again. *)
Lemma startOp_end_twice (h : heap) (s : startOp S) (down : S) (xs : list value) :
  closed s = false ->
  downStream (base s) = Some down ->
  sliceElems h (data s) = Some xs ->
  exists s1 s2,
    startOp_end h s = Ok s1 /\ startOp_end h s1 = Ok s2 /\ closed s2 = false.
Proof.
  intros Hc Hd Hx.
  rewrite (startOp_end_open h s down xs Hc Hd Hx).
  eexists _, _. split; [reflexivity|].
  erewrite startOp_end_open; [split; [reflexivity|exact Hc] | exact Hc
                              | reflexivity | exact Hx].
Qed.
End Protocol.

Lemma startOp_end_protocol_witness :
  exists s' k answers,
    startOp_end storeWithSlice limitedSource = Ok s' /\
    sourceLog s' =
      [] ++ EvBegin 2 :: rounds (take k [VInt 1; VInt 2]) answers ++ [EvEnd] /\
    length answers = k /\ k <= 2 /\
    (forall i, Datatypes.S i < k -> answers !! i = Some false) /\
    (k < 2 -> answers !! (k - 1) = Some true).
Proof.
  apply (startOp_end_protocol storeWithSlice limitedSource
           (Traced [] (Stage (BaseStage None false) (opLimiter 1)))
           [VInt 1; VInt 2]); reflexivity.
Defined.

(** The log of [limitedSource]: the drive stops after the first
    element. *)
Example limitedSource_log :
  mapResult sourceLog (startOp_end storeWithSlice limitedSource) =
  Ok [EvBegin 2; EvAccept (VInt 1); EvCancellationRequested true; EvEnd].
Proof. reflexivity. Qed.

(** C2, counterexample: the sink downstream asks for cancellation, and
    the inherited [cancellationRequested] of the stage in front of it
    still answers false; so it does in front of a [Limit(0)] stage. *)
Lemma default_stage_ignores_downstream :
  let limit0 : stage unit := Stage (BaseStage None false) (opLimiter 0) in
  fst (cancellationRequested Saturated) = true /\
  fst (cancellationRequested (BaseStage (Some Saturated) false)) = false /\
  fst (cancellationRequested limit0) = true /\
  fst (cancellationRequested (BaseStage (Some limit0) false)) = false.
Proof. repeat split. Qed.

(** C1: the source is still open after a drive, and a second drive
    sends the elements again instead of panicking; likewise a second
    [Collect] on the same stream returns the elements again. *)
Theorem second_drive_runs_again :
  driveTwice =
    Ok (false,
        [EvBegin 2; EvAccept (VInt 1); EvCancellationRequested false;
         EvAccept (VInt 2); EvCancellationRequested false; EvEnd;
         EvBegin 2; EvAccept (VInt 1); EvCancellationRequested false;
         EvAccept (VInt 2); EvCancellationRequested false; EvEnd]) /\
  collectTwice = Ok ([VInt 1; VInt 2], [VInt 1; VInt 2]).
Proof. split; vm_compute; reflexivity. Qed.

(** ** Terminal operations *)

Section Terminals.
Context {Env : Type}.
Implicit Types (st : stage Env) (b : Stream Env) (o : opState Env).

(** Induction on the length of the chain below a stage. *)
Lemma stage_depth_ind (P : stage Env -> Prop) :
  (forall st, (forall st', depth st' < depth st -> P st') -> P st) ->
  forall st, P st.
Proof.
  intros Hstep st. remember (depth st) as n eqn:Hn. revert st Hn.
  induction n as [n IH] using lt_wf_ind. intros st ->.
  apply Hstep. intros st' Hlt. by apply (IH (depth st')).
Qed.

Lemma depth_downStream (base0 : baseStage (stage Env)) o d :
  downStream base0 = Some d -> depth d < depth (Stage base0 o).
Proof. intros Hd. simpl. rewrite Hd. lia. Qed.

(** [accept] keeps the length of the chain. *)
Lemma depth_accept (t : value) st : depth (stage_accept t st) = depth st.
Proof.
  revert t. induction st as [st IH] using stage_depth_ind. intros t.
  destruct st as [[down p] o].
  assert (forall u, depth (Stage (baseStage_accept stage_accept u
                                    (BaseStage down p)) o)
                    = depth (Stage (BaseStage down p) o)) as Hfwd.
  { intros u. unfold baseStage_accept. simpl.
    destruct down as [d|]; simpl; [|done].
    f_equal. apply IH. simpl. lia. }
  destruct o; simpl.
  - destruct (call mapper t). apply Hfwd.
  - destruct (call filter t) as [f' []]; [apply Hfwd | done].
  - destruct (count <? n)%Z; [apply Hfwd | done].
  - by destruct (call grouper t).
  - done.
  - destruct seen; [by destruct (call comparator (t, max)) | done].
  - destruct seen; [by destruct (call comparator (t, min)) | done].
  - by destruct found.
  - done.
Qed.

(** Any fuel from the length of the chain on gives the same [end]. *)
Lemma stage_end_upto_enough (fuel : nat) st :
  depth st <= fuel -> stage_end_upto fuel st = stage_end st.
Proof.
  revert fuel. induction st as [st IH] using stage_depth_ind. intros fuel Hf.
  unfold stage_end.
  destruct st as [[down p] o]. simpl in Hf |- *.
  destruct fuel as [|fuel]; [lia|]. simpl.
  destruct down as [d|]; simpl.
  - assert (depth d < depth (Stage (BaseStage (Some d) p) o)) as Hd
      by (simpl; lia).
    assert (forall d' : stage Env, depth d' = depth d ->
              stage_end_upto fuel d' = stage_end_upto (depth d) d') as Hsame.
    { intros d' Hd'.
      rewrite (IH d' ltac:(simpl; lia) fuel ltac:(lia)).
      unfold stage_end. by rewrite Hd'. }
    destruct o; unfold baseStage_end, baseStage_accept; simpl;
      rewrite Hsame; try done.
    apply depth_accept.
  - by destruct o.
Qed.

(** The equation of [end], without fuel. *)
Lemma stage_end_unfold (base0 : baseStage (stage Env)) o :
  stage_end (Stage base0 o) =
  match o with
  | groupOp _ groups =>
      Stage (baseStage_end stage_end
               (baseStage_accept stage_accept (VMap groups) base0)) o
  | _ => Stage (baseStage_end stage_end base0) o
  end.
Proof.
  destruct base0 as [[d|] p].
  - unfold stage_end at 1. simpl.
    destruct o; unfold baseStage_end, baseStage_accept; simpl;
      rewrite stage_end_upto_enough; try done.
    by rewrite depth_accept.
  - unfold stage_end. by destruct o.
Qed.

(** A poll leaves the stages as they were. *)
Lemma cancellationRequested_pure st :
  snd (stage_cancellationRequested st) = st.
Proof.
  induction st as [st IH] using stage_depth_ind.
  destruct st as [[down p] o].
  assert (snd (match down with
               | Some d =>
                   let (r, d') := stage_cancellationRequested d in
                   (r, Stage (setNextSink (Some d') (BaseStage down p)) o)
               | None => (false, Stage (BaseStage down p) o)
               end) = Stage (BaseStage down p) o) as Hdown.
  { destruct down as [d|]; [|done].
    pose proof (IH d ltac:(simpl; lia)) as Hd.
    destruct (stage_cancellationRequested d) as [r d']. simpl in *.
    by subst d'. }
  destruct o; simpl; try exact Hdown; try done.
  by destruct (n <=? count)%Z.
Qed.

Lemma op_begin (size : Z) st : op (stage_begin size st) = begun (op st).
Proof. by destruct st as [base0 []]. Qed.

Lemma op_end st : op (stage_end st) = op st.
Proof. destruct st as [base0 o]. rewrite stage_end_unfold. by destruct o. Qed.

Lemma deliver_collect (p : bool) (acc xs : list value) :
  deliver xs (Stage (BaseStage None p) (collectOp (Env:=Env) acc)) =
  Stage (BaseStage None p) (collectOp (acc ++ xs)).
Proof.
  revert acc. induction xs as [|t xs IH]; intros acc; simpl.
  - by rewrite app_nil_r.
  - rewrite IH. by rewrite <- app_assoc.
Qed.

(** C5.  For a container holding [xs], [New] followed at once by
    [Collect] returns [xs]. *)
Theorem New_Collect_roundtrip (h : heap) (v : value) (xs : list value) :
  collection h v = Some xs ->
  exists s h' s',
    New h v = Ok (s, h') /\
    Collect (Env:=Env) h' (Handle s 0) = Ok (xs, s').
Proof.
  intros Hc. rewrite (New_collection _ _ _ Hc).
  eexists _, _, _. split; [reflexivity|].
  unfold Collect, terminal, wrapSink. simpl.
  erewrite startOp_end_open; [| reflexivity | reflexivity
                              | apply sliceElems_buffer, lookup_insert_eq].
  base_simpl. rewrite deliver_collect, op_end. reflexivity.
Qed.

Lemma nthStage_begin (k : nat) (size : Z) st :
  exists size', nthStage k (stage_begin size st)
                = stage_begin size' <$> nthStage k st.
Proof.
  revert size st. induction k as [|k IH]; intros size st; cbn [nthStage].
  - by exists size.
  - destruct st as [[[d|] p] o].
    + destruct o; simpl; unfold baseStage_begin; simpl; apply IH.
    + exists size. by destruct o.
Qed.

Lemma noGroup_begin (k : nat) (size : Z) st :
  noGroup k (stage_begin size st) = noGroup k st.
Proof.
  revert size st. induction k as [|k IH]; intros size st; [done|].
  destruct st as [[[d|] p] o]; destruct o; simpl; try done;
    unfold baseStage_begin; simpl; apply IH.
Qed.

Lemma nthStage_end (k : nat) st :
  noGroup k st = true ->
  nthStage k (stage_end st) = stage_end <$> nthStage k st.
Proof.
  revert st. induction k as [|k IH]; intros st; cbn [nthStage]; [done|].
  destruct st as [[[d|] p] o]; rewrite stage_end_unfold;
    destruct o; simpl; try done; unfold baseStage_end; simpl; apply IH.
Qed.

Lemma attach_nthStage (k : nat) o st st' :
  attach k o st = Some st' ->
  exists parent, nthStage (Datatypes.S k) st' = Some (newStage parent o).
Proof.
  revert st st'. induction k as [|k IH]; intros [base0 o0] st'; simpl.
  - intros [= <-]. by eexists.
  - destruct (downStream base0) as [d|]; [|done].
    destruct (attach k o d) as [d'|] eqn:E; [|done].
    intros [= <-]. simpl. by apply (IH d).
Qed.

Lemma attach_is_Some (k : nat) o st :
  is_Some (nthStage k st) -> is_Some (attach k o st).
Proof.
  revert st. induction k as [|k IH]; intros [base0 o0]; simpl.
  - by eexists.
  - destruct (downStream base0) as [d|]; [|by intros [? ?]].
    intros H. destruct (IH d H) as [d' ->]. by eexists.
Qed.

(** The stages down to the parent keep their kind under [attach]. *)
Lemma attach_noGroup (k : nat) o st st' :
  attach k o st = Some st' ->
  noGroup (Datatypes.S k) st' = noGroup (Datatypes.S k) st.
Proof.
  revert st st'. induction k as [|k IH]; intros [[down p] o0] st'; simpl.
  - intros [= <-]. simpl. destruct o0; try done; by destruct down.
  - destruct down as [d|]; [|done].
    destruct (attach k o d) as [d'|] eqn:E; [|done].
    intros [= <-]. simpl. destruct o0; try done; by apply IH.
Qed.

(** [wrapSink] on a linked stage: the new stage sits right below it. *)
Lemma wrapSink_attached b o :
  attached b = true ->
  exists b1 parent down,
    wrapSink b o = Ok b1 /\
    stageAt (self b1) (startStage b1) = Some (newStage parent o) /\
    downStream (base (startStage b1)) = Some down /\
    (self b1 = Datatypes.S (self b)) /\
    (self b = 0 \/ noGroup (self b) down = groupFree b) /\
    data (startStage b1) = data (startStage b) /\
    closed (startStage b1) = closed (startStage b).
Proof.
  destruct b as [s [|k]]; unfold attached, wrapSink, groupFree; simpl.
  - intros _. eexists _, _, _. repeat split; by left.
  - destruct (downStream (base s)) as [d|] eqn:Hd; [|done].
    destruct (nthStage k d) as [st|] eqn:Hn; [|done]. intros _.
    destruct (attach_is_Some k o d) as [d' Hd']; [by rewrite Hn|].
    rewrite Hd'. destruct (attach_nthStage _ _ _ _ Hd') as [parent Hp].
    exists (Handle (StartOp (setNextSink (Some d') (base s)) (data s) (closed s))
                   (Datatypes.S (Datatypes.S k))), parent, d'.
    repeat split; try done. right. exact (attach_noGroup k o d d' Hd').
Qed.

(** A terminal operation on a source without elements, with no Group
    stage in front of it, reads the state its stage was created in (as
    [begin] left it). *)
Lemma terminal_empty {R : Type} (h : heap) b o (read : opState Env -> option R)
    (r : R) :
  attached b = true ->
  groupFree b = true ->
  closed (startStage b) = false ->
  len (data (startStage b)) = 0 ->
  read (begun o) = Some r ->
  exists s', terminal h b o read = Ok (r, s').
Proof.
  intros Ha Hg Hc Hl Hr.
  destruct (wrapSink_attached b o Ha)
    as (b1 & parent & down & Hw & Hat & Hd & Hself & Hng & Hdata & Hclosed).
  unfold terminal. rewrite Hw. simpl.
  unfold startOp_end. rewrite Hclosed, Hc, Hd, Hdata, Hl. simpl.
  rewrite Hself in Hat |- *. simpl in Hat |- *. rewrite Hd in Hat.
  destruct (nthStage_begin (self b) (Z.of_nat 0) down) as [size' Hb].
  assert (noGroup (self b) down = true) as Hng'.
  { destruct Hng as [H0 | Hng]; [by rewrite H0 | by rewrite Hng]. }
  rewrite nthStage_end by (by rewrite noGroup_begin).
  rewrite Hb, Hat.
  cbn [fmap option_fmap option_map].
  rewrite op_end, op_begin. unfold newStage. cbn [op].
  rewrite Hr. by eexists.
Qed.


(** The same, from [New] on an empty container. *)
Lemma New_empty_terminals (h : heap) (v : value)
    (comparator : ComparatorFunc Env) :
  collection h v = Some [] ->
  exists s h',
    New h v = Ok (s, h') /\
    (exists s', First h' (Handle s 0) = Ok (VNil, s')) /\
    (exists s', Last h' (Handle s 0) = Ok (VNil, s')) /\
    (exists s', Max h' comparator (Handle s 0) = Ok (VNil, s')) /\
    (exists s', Min h' comparator (Handle s 0) = Ok (VNil, s')).
Proof.
  intros Hc. rewrite (New_collection _ _ _ Hc).
  eexists _, _. split; [reflexivity|].
  repeat split; by apply terminal_empty.
Qed.
End Terminals.

Lemma New_Collect_roundtrip_witness :
  exists s h' s',
    New storeWithSlice (VSlice wholeSlice) = Ok (s, h') /\
    Collect (Env:=unit) h' (Handle s 0) = Ok ([VInt 1; VInt 2], s').
Proof.
  apply (New_Collect_roundtrip storeWithSlice (VSlice wholeSlice)
           [VInt 1; VInt 2]).
  reflexivity.
Defined.



(** ** Limit and the stages in front of it *)

(** The pipeline [Map(counting f) -> Limit(n) -> Collect] in a given
    state: the drive stops at the poll after the accept that fills the
    limit. *)
Lemma deliver_map_limit_collect (f : value -> value) (n : Z) (xs : list value)
    (calls : nat) (count : Z) (acc : list value) (b1 b2 b3 : bool) :
  exists count' j,
    deliver xs
      (Stage
         (BaseStage
            (Some (Stage
                     (BaseStage (Some (Stage (BaseStage None b3) (collectOp acc)))
                                b2)
                     (limitOp n count)))
            b1)
         (mapOp (Closure calls (fun k v => (Datatypes.S k, f v))))) =
    Stage
      (BaseStage
         (Some (Stage
                  (BaseStage
                     (Some (Stage (BaseStage None b3)
                              (collectOp
                                 (acc ++ take (Z.to_nat (n - count)) (f <$> xs)))))
                     b2)
                  (limitOp n count')))
         b1)
      (mapOp (Closure (calls + j) (fun k v => (Datatypes.S k, f v)))) /\
    (Z.of_nat j <= Z.max 1 (n - count))%Z.
Proof.
  revert calls count acc. induction xs as [|t xs IH]; intros calls count acc.
  - exists count, 0. simpl. rewrite take_nil, app_nil_r, Nat.add_0_r.
    split; [done | lia].
  - simpl. destruct (count <? n)%Z eqn:Hlt; base_simpl.
    + apply Z.ltb_lt in Hlt.
      replace (Z.to_nat (n - count)) with (Datatypes.S (Z.to_nat (n - (count + 1))))
        by lia.
      destruct (n <=? count + 1)%Z eqn:Hle; simpl.
      * apply Z.leb_le in Hle. exists (count + 1)%Z, 1.
        replace (Z.to_nat (n - (count + 1))) with 0 by lia.
        rewrite take_0. replace (calls + 1) with (Datatypes.S calls) by lia.
        split; [done | lia].
      * apply Z.leb_gt in Hle.
        destruct (IH (Datatypes.S calls) (count + 1)%Z (acc ++ [f t]))
          as (c' & j & -> & Hj).
        exists c', (Datatypes.S j). rewrite <- app_assoc. simpl.
        replace (calls + Datatypes.S j) with (Datatypes.S calls + j) by lia.
        split; [done | lia].
    + apply Z.ltb_ge in Hlt.
      assert ((n <=? count)%Z = true) as -> by by apply Z.leb_le.
      simpl. exists count, 1.
      replace (Z.to_nat (n - count)) with 0 by lia.
      rewrite take_0, app_nil_r.
      replace (calls + 1) with (Datatypes.S calls) by lia.
      split; [done | lia].
Qed.

(** A Map stage hands on what its function returns, and counts. *)
Lemma accept_mapStages (fs : list (value -> value)) (calls : nat) (p : bool)
    (down : stage nat) (t : value) :
  stage_accept t (mapStages fs calls p down) =
  mapStages fs (Datatypes.S calls) p
    (stage_accept (foldl (fun v f => f v) t fs) down).
Proof.
  revert t. induction fs as [|f fs IH]; intros t; simpl; [done|].
  base_simpl. by rewrite IH.
Qed.

Lemma begin_mapStages (fs : list (value -> value)) (calls : nat) (p : bool)
    (down : stage nat) (size : Z) :
  stage_begin size (mapStages fs calls p down) =
  mapStages fs calls p (stage_begin size down).
Proof.
  induction fs as [|f fs IH]; simpl; [done|]. base_simpl. by rewrite IH.
Qed.

Lemma end_mapStages (fs : list (value -> value)) (calls : nat) (p : bool)
    (down : stage nat) :
  stage_end (mapStages fs calls p down) = mapStages fs calls p (stage_end down).
Proof.
  induction fs as [|f fs IH]; [done|].
  cbn [mapStages]. rewrite stage_end_unfold. base_simpl. by rewrite IH.
Qed.

(** A Map stage answers a poll with the answer of its downstream. *)
Lemma cancellationRequested_mapStages (fs : list (value -> value))
    (calls : nat) (p : bool) (down : stage nat) :
  stage_cancellationRequested (mapStages fs calls p down) =
  (fst (stage_cancellationRequested down), mapStages fs calls p down).
Proof.
  induction fs as [|f fs IH]; simpl.
  - pose proof (cancellationRequested_pure down) as Hp.
    destruct (stage_cancellationRequested down) as [r d]. simpl in *.
    by subst d.
  - by rewrite IH.
Qed.

Lemma limit_full_cancels (base0 : baseStage (stage nat)) (n count : Z) :
  (n <= count)%Z ->
  stage_cancellationRequested (Stage base0 (limitOp n count)) =
  (true, Stage base0 (limitOp n count)).
Proof. intros Hle. simpl. by rewrite (proj2 (Z.leb_le n count) Hle). Qed.

(** A recording sink in front of Map stages and a [Limit(n)] stage that
    has taken [count] elements: the source delivers at most
    [max 1 (n - count)] more, and every mapper runs once for each. *)
Lemma deliver_maps_limit (fs : list (value -> value)) (p : bool) (n : Z)
    (xs : list value) (l : list event) (calls : nat) (count : Z)
    (base0 : baseStage (stage nat)) :
  exists j l' lim,
    deliver xs
      (Traced l (mapStages fs calls p (Stage base0 (limitOp n count)))) =
    Traced l' (mapStages fs (calls + j) p lim) /\
    accepts l' = accepts l + j /\
    (Z.of_nat j <= Z.max 1 (n - count))%Z.
Proof.
  revert l calls count base0.
  induction xs as [|t xs IH]; intros l calls count base0.
  - exists 0, l, (Stage base0 (limitOp n count)). simpl.
    rewrite Nat.add_0_r. repeat split; lia.
  - cbn [deliver]. simpl.
    rewrite accept_mapStages, cancellationRequested_mapStages.
    set (u := foldl (fun v f => f v) t fs).
    assert (exists base1 count1,
              stage_accept u (Stage base0 (limitOp n count))
              = Stage base1 (limitOp n count1) /\
              ((count < n)%Z -> count1 = (count + 1)%Z) /\
              ((n <= count)%Z -> count1 = count)) as (base1 & count1 & -> & Hlt & Hge).
    { simpl. destruct (count <? n)%Z eqn:E.
      - apply Z.ltb_lt in E. eexists _, _. split; [reflexivity|].
        split; [done | lia].
      - apply Z.ltb_ge in E. eexists _, _. split; [reflexivity|].
        split; [lia | done]. }
    destruct (fst (stage_cancellationRequested (Stage base1 (limitOp n count1))))
      eqn:Hr; simpl.
    + exists 1, ((l ++ [EvAccept t]) ++ [EvCancellationRequested true]),
        (Stage base1 (limitOp n count1)).
      replace (calls + 1) with (Datatypes.S calls) by lia.
      split; [done|]. rewrite !accepts_app. simpl. split; lia.
    + assert (count < n /\ count1 = count + 1 /\ count1 < n)%Z as (H1 & H2 & H3).
      { destruct (Z.lt_ge_cases count n) as [Hc | Hc].
        - specialize (Hlt Hc).
          destruct (Z.lt_ge_cases count1 n) as [Hc1 | Hc1]; [done|].
          rewrite limit_full_cancels in Hr by done. done.
        - specialize (Hge Hc). subst count1.
          rewrite limit_full_cancels in Hr by done. done. }
      destruct (IH ((l ++ [EvAccept t]) ++ [EvCancellationRequested false])
                  (Datatypes.S calls) count1 base1)
        as (j & l' & lim & -> & Hacc & Hj).
      exists (Datatypes.S j), l', lim.
      replace (calls + Datatypes.S j) with (Datatypes.S calls + j) by lia.
      split; [done|]. rewrite !accepts_app in Hacc. simpl in Hacc.
      split; lia.
Qed.

(** C3, as amended.  When [Limit(n)] follows the source directly or
    through Map stages only, the source delivers at most [n + 1]
    elements and every Map function upstream of the limit runs at most
    [n + 1] times, once for each element delivered; with one Map stage,
    [Collect] returns the first [n] mapped elements.  (A stage that
    drops or buffers elements in front of the limit can take the whole
    input.) *)
Theorem Limit_bounds_Map_stages (h : heap) (v : value) (xs : list value)
    (n : Z) (f : value -> value) (fs : list (value -> value)) (p : bool)
    (base0 : baseStage (stage nat)) :
  (0 <= n)%Z ->
  collection h v = Some xs ->
  (exists s h',
     New h v = Ok (s, h') /\
     exists s' j l' lim,
       startOp_end h'
         (startOp_setNextSink
            (Traced [] (mapStages fs 0 p (Stage base0 (opLimiter n)))) s)
         = Ok s' /\
       downStream (base s') = Some (Traced l' (mapStages fs j p lim)) /\
       accepts l' = j /\
       (Z.of_nat j <= n + 1)%Z) /\
  (exists s' j,
     mapLimitCollect h v (counting f) n =
       Ok (take (Z.to_nat n) (f <$> xs), s') /\
     mapperCalls s' = Some j /\
     (Z.of_nat j <= n + 1)%Z).
Proof.
  intros Hn Hc. split.
  - rewrite (New_collection _ _ _ Hc). eexists _, _. split; [reflexivity|].
    erewrite startOp_end_open; [| reflexivity | reflexivity
                                | apply sliceElems_buffer, lookup_insert_eq].
    unfold opLimiter. simpl. rewrite begin_mapStages. simpl.
    destruct (deliver_maps_limit fs p n xs [EvBegin (Z.of_nat (length xs))] 0 0%Z
                (baseStage_begin stage_begin (Z.of_nat (length xs)) base0))
      as (j & l' & lim & Hd & Hacc & Hj).
    simpl in Hd. rewrite Hd. simpl. rewrite end_mapStages.
    eexists _, j, _, _. split; [reflexivity|]. simpl.
    split; [reflexivity|]. rewrite accepts_app. simpl in *. split; lia.
  - unfold mapLimitCollect. rewrite (New_collection _ _ _ Hc). simpl.
    unfold Collect, terminal, Map, Limit, wrapSink, newStage,
      opMapper, opLimiter, opCollector, counting. base_simpl.
    erewrite startOp_end_open; [| reflexivity | reflexivity
                                | apply sliceElems_buffer, lookup_insert_eq].
    base_simpl.
    destruct (deliver_map_limit_collect f n xs 0 0%Z [] false false false)
      as (c' & j & Hd & Hj).
    simpl in Hd. rewrite Hd.
    rewrite !stage_end_unfold. base_simpl. rewrite !stage_end_unfold. base_simpl.
    rewrite !stage_end_unfold. base_simpl.
    rewrite Z.sub_0_r. eexists _, j. split; [reflexivity|].
    unfold mapperCalls. simpl. split; [done | lia].
Qed.

Lemma Limit_bounds_Map_stages_witness :
  (exists s h',
     New storeWithFive (VSlice fiveSlice) = Ok (s, h') /\
     exists s' j l' lim,
       startOp_end h'
         (startOp_setNextSink
            (Traced [] (mapStages [id; id] 0 false
                          (Stage (BaseStage None false) (opLimiter 1)))) s)
         = Ok s' /\
       downStream (base s') = Some (Traced l' (mapStages [id; id] j false lim)) /\
       accepts l' = j /\
       (Z.of_nat j <= 1 + 1)%Z) /\
  (exists s' j,
     mapLimitCollect storeWithFive (VSlice fiveSlice) (counting id) 1 =
       Ok (take (Z.to_nat 1)
             (id <$> [VInt 1; VInt 2; VInt 3; VInt 4; VInt 5]), s') /\
     mapperCalls s' = Some j /\
     (Z.of_nat j <= 1 + 1)%Z).
Proof.
  apply (Limit_bounds_Map_stages storeWithFive (VSlice fiveSlice)
           [VInt 1; VInt 2; VInt 3; VInt 4; VInt 5] 1 id [id; id] false
           (BaseStage None false));
    [lia | reflexivity].
Defined.

(** C3, counterexample: over five elements,
    [Filter(p).Limit(1).Collect()] with a [p] that lets nothing through
    runs [p] five times, more than [1 + 1]: the limit is never reached,
    so no stage asks for cancellation. *)
Lemma Filter_before_Limit_runs_on_every_element :
  mapResult (fun r => (fst r, filterCalls (snd r)))
    (filterLimitCollect storeWithFive (VSlice fiveSlice)
       (countingFilter (fun _ => false)) 1) =
    Ok ([], Some 5) /\
  ~ (5 <= 1 + 1).
Proof. split; [vm_compute; reflexivity | lia]. Qed.

(** With a Map stage in the same place the drive stops after the first
    element. *)
Example Map_before_Limit_stops :
  mapResult (fun r => (fst r, mapperCalls (snd r)))
    (mapLimitCollect storeWithFive (VSlice fiveSlice) (counting id) 1) =
    Ok ([VInt 1], Some 1).
Proof. vm_compute; reflexivity. Qed.

(** ** The two constructors under the terminal methods *)

(** The terminal methods return the same on the source of
    [Of(v0, v1, ...)] and on that of [New] over a slice holding the
    same values. *)
Lemma Of_terminal_same {Env R : Type} (h1 h2 : heap) (args : list value)
    (xs : slice) (o : opState Env) (read : opState Env -> option R) :
  sliceElems h2 xs = Some args ->
  exists s1 h1' s2 h2',
    callOf h1 args = Ok (s1, h1') /\
    New h2 (VSlice xs) = Ok (s2, h2') /\
    mapResult fst (terminal h1' (Handle s1 0) o read) =
    mapResult fst (terminal h2' (Handle s2 0) o read).
Proof.
  intros Hx.
  set (l := fresh (dom h1 : gset loc)).
  assert (collection (<[l := VArray args]> h1)
            (VSlice (Slice_ l 0 (length args))) = Some args) as Hc1.
  { unfold collection. simpl. rewrite elemsOf_slice.
    apply sliceElems_buffer. by rewrite lookup_insert_eq. }
  assert (collection h2 (VSlice xs) = Some args) as Hc2 by done.
  unfold callOf, Of. fold l.
  rewrite (New_collection _ _ _ Hc1), (New_collection _ _ _ Hc2).
  eexists _, _, _, _. split; [reflexivity|]. split; [reflexivity|].
  unfold terminal, wrapSink. simpl.
  erewrite !startOp_end_open; try reflexivity;
    try (apply sliceElems_buffer, lookup_insert_eq).
  simpl.
  match goal with
  | |- context [read ?x] => by destruct (read x)
  end.
Qed.

(** * Further properties of [stream.go] *)

(** ** Stages that override nothing, in a row *)

Section DefaultChain.
Context {D : Type} `{!sink D}.

Lemma begin_link (flags : list bool) (size : Z) (d : D) :
  @begin _ (defaults_sink flags D) size (link flags d) =
  link flags (begin size d).
Proof.
  induction flags as [|p flags IH]; simpl; [done|].
  unfold baseStage_begin, setNextSink. simpl. by rewrite IH.
Qed.

Lemma end_link (flags : list bool) (d : D) :
  @end_ _ (defaults_sink flags D) (link flags d) = link flags (end_ d).
Proof.
  induction flags as [|p flags IH]; simpl; [done|].
  unfold baseStage_end, setNextSink. simpl. by rewrite IH.
Qed.

Lemma accept_link (flags : list bool) (t : value) (d : D) :
  @accept _ (defaults_sink flags D) t (link flags d) =
  link flags (accept t d).
Proof.
  induction flags as [|p flags IH]; simpl; [done|].
  unfold baseStage_accept, setNextSink. simpl. by rewrite IH.
Qed.

Lemma deliver_link (p : bool) (flags : list bool) (xs : list value) (d : D) :
  @deliver _ (defaults_sink (p :: flags) D) xs (link (p :: flags) d) =
  link (p :: flags) (feed xs d).
Proof.
  revert d. induction xs as [|t xs IH]; intros d; [done|].
  pose proof (accept_link (p :: flags) t d) as Ha.
  cbn [deliver]. rewrite Ha.
  change (@cancellationRequested _ (defaults_sink (p :: flags) D)
            (link (p :: flags) (accept t d)))
    with (false, link (p :: flags) (accept t d)).
  cbn iota. by rewrite IH.
Qed.

(** X1.  Behind any number of stages that override nothing, the sink at
    the end receives [begin(len(data))], then every element in index
    order, then [end], and is never polled: whatever it would answer,
    nothing is held back. *)
Theorem default_stages_forward_all (h : heap) (p : bool) (flags : list bool)
    (s : startOp (defaults (p :: flags) D)) (d : D) (xs : list value) :
  closed s = false ->
  downStream (base s) = Some (link (p :: flags) d) ->
  sliceElems h (data s) = Some xs ->
  @startOp_end _ (defaults_sink (p :: flags) D) h s =
  Ok (startOp_setNextSink
        (link (p :: flags)
           (end_ (feed xs (begin (Z.of_nat (len (data s))) d))))
        s).
Proof.
  intros Hc Hd Hx.
  rewrite (@startOp_end_open _ (defaults_sink (p :: flags) D) h s _ xs Hc Hd Hx).
  rewrite (sliceElems_length _ _ _ Hx).
  pose proof (begin_link (p :: flags) (Z.of_nat (len (data s))) d) as Hb.
  rewrite Hb, deliver_link.
  pose proof (end_link (p :: flags)
                (feed xs (begin (Z.of_nat (len (data s))) d))) as He.
  by rewrite He.
Qed.
End DefaultChain.

(** What [feed] leaves in the log of a recording sink. *)
Lemma feed_traced_log {S : Type} `{!sink S} (xs : list value) (t : traced S) :
  log (feed xs t) = log t ++ (EvAccept <$> xs).
Proof.
  revert t. induction xs as [|x xs IH]; intros t; simpl.
  - by rewrite app_nil_r.
  - unfold feed in *. simpl. rewrite IH. simpl. by rewrite <- app_assoc.
Qed.

Lemma default_stages_forward_all_witness :
  @startOp_end _ (defaults_sink [false; true] (traced saturated)) storeWithSlice
    (StartOp (BaseStage (Some (link [false; true] (Traced [] Saturated))) false)
             wholeSlice false) =
  Ok (startOp_setNextSink
        (link [false; true]
           (Traced [EvBegin 2; EvAccept (VInt 1); EvAccept (VInt 2); EvEnd]
                   Saturated))
        (StartOp (BaseStage (Some (link [false; true] (Traced [] Saturated))) false)
                 wholeSlice false)).
Proof.
  exact (default_stages_forward_all storeWithSlice false [true]
           (StartOp (BaseStage (Some (link [false; true] (Traced [] Saturated)))
                               false)
                    wholeSlice false)
           (Traced [] Saturated) [VInt 1; VInt 2]
           eq_refl eq_refl eq_refl).
Defined.


(** ** The order of accept and poll *)

Section Polling.
Context {S : Type} `{!sink S}.

Lemma deliver_traced_prefix (xs : list value) (d : traced S) :
  exists rest, log (deliver xs d) = log d ++ rest.
Proof.
  destruct (deliver_traced xs d) as (k & answers & Hlog & _).
  by eexists.
Qed.

(** X2.  The source polls only after an [accept]: when it holds at
    least one element, the first one is delivered whatever the sink
    would have answered beforehand. *)
Theorem first_element_always_delivered (h : heap) (s : startOp (traced S))
    (down : traced S) (x : value) (xs : list value) :
  closed s = false ->
  downStream (base s) = Some down ->
  sliceElems h (data s) = Some (x :: xs) ->
  exists s' rest,
    startOp_end h s = Ok s' /\
    sourceLog s' =
      log down ++ EvBegin (Z.of_nat (len (data s))) :: EvAccept x :: rest.
Proof.
  intros Hc Hd Hx.
  rewrite (startOp_end_open h s down (x :: xs) Hc Hd Hx).
  rewrite (sliceElems_length _ _ _ Hx).
  set (n := Z.of_nat (len (data s))).
  cbn [deliver].
  destruct (cancellationRequested (accept x (begin n down))) as [stop d2] eqn:E.
  simpl in E.
  destruct (cancellationRequested (accept x (begin n (inner down))))
    as [r i] eqn:Ei.
  injection E as <- <-.
  destruct r.
  - eexists _, _. split; [reflexivity|].
    unfold sourceLog. simpl. rewrite <- !app_assoc. simpl. reflexivity.
  - destruct (deliver_traced_prefix xs
                (Traced ((log down ++ [EvBegin n]) ++ [EvAccept x]
                           ++ [EvCancellationRequested false]) i))
      as [rest Hrest].
    eexists _, _. split; [reflexivity|].
    unfold sourceLog. simpl. simpl in Hrest.
    rewrite <- !app_assoc in Hrest. simpl in Hrest.
    rewrite <- !app_assoc. simpl. rewrite Hrest.
    rewrite <- !app_assoc. simpl. reflexivity.
Qed.

Lemma deliver_patient (xs : list value) (d : traced S) :
  (forall d' : S, fst (cancellationRequested d') = false) ->
  log (deliver xs d) = log d ++ rounds xs (replicate (length xs) false).
Proof.
  intros Hp. revert d. induction xs as [|t xs IH]; intros d; simpl.
  - by rewrite app_nil_r.
  - pose proof (Hp (accept t (inner d))) as Hf.
    destruct (cancellationRequested (accept t (inner d))) as [r i].
    simpl in Hf. subst r. rewrite IH. simpl.
    by rewrite <- !app_assoc.
Qed.

(** X3.  A sink that never asks for cancellation receives the whole
    input: [begin(len(data))], then for every element in index order an
    [accept] and a poll, then [end]. *)
Theorem patient_sink_receives_everything (h : heap) (s : startOp (traced S))
    (down : traced S) (xs : list value) :
  (forall d : S, fst (cancellationRequested d) = false) ->
  closed s = false ->
  downStream (base s) = Some down ->
  sliceElems h (data s) = Some xs ->
  exists s',
    startOp_end h s = Ok s' /\
    sourceLog s' =
      log down ++ EvBegin (Z.of_nat (len (data s)))
        :: rounds xs (replicate (length xs) false) ++ [EvEnd].
Proof.
  intros Hp Hc Hd Hx.
  rewrite <- (sliceElems_length _ _ _ Hx).
  rewrite (startOp_end_open h s down xs Hc Hd Hx).
  eexists. split; [reflexivity|].
  unfold sourceLog. simpl. rewrite (deliver_patient _ _ Hp). simpl.
  by rewrite <- !app_assoc.
Qed.
End Polling.

Lemma first_element_always_delivered_witness :
  exists s' rest,
    startOp_end storeWithSlice
      (StartOp (BaseStage (Some (Traced [] Saturated)) false) wholeSlice false)
      = Ok s' /\
    sourceLog s' = [] ++ EvBegin 2 :: EvAccept (VInt 1) :: rest.
Proof.
  exact (first_element_always_delivered storeWithSlice
           (StartOp (BaseStage (Some (Traced [] Saturated)) false)
                    wholeSlice false)
           (Traced [] Saturated) (VInt 1) [VInt 2]
           eq_refl eq_refl eq_refl).
Defined.

Lemma patient_sink_receives_everything_witness :
  exists s',
    startOp_end storeWithSlice
      (StartOp (BaseStage (Some probe) false) wholeSlice false) = Ok s' /\
    sourceLog s' =
      [] ++ EvBegin 2
        :: rounds [VInt 1; VInt 2] (replicate 2 false) ++ [EvEnd].
Proof.
  exact (patient_sink_receives_everything storeWithSlice
           (StartOp (BaseStage (Some probe) false) wholeSlice false)
           probe [VInt 1; VInt 2]
           (fun d => eq_refl) eq_refl eq_refl eq_refl).
Defined.

(** ** More on the input adapter *)

Section AdapterMore.
Context {S : Type}.

(** X4.  [New] looks at its argument only for the elements: an array, a
    slice, a window of a larger array or a pointer to any of these, if
    they hold the same elements, give the same source and the same
    store. *)
Theorem New_same_elements_same_source (h : heap) (v1 v2 : value)
    (xs : list value) :
  collection h v1 = Some xs ->
  collection h v2 = Some xs ->
  New (S:=S) h v1 = New h v2.
Proof.
  intros H1 H2.
  by rewrite (New_collection _ _ _ H1), (New_collection _ _ _ H2).
Qed.

(** X5.  [New] of a slice that is a window [off, off + len) of a
    backing array copies the cells of the window and nothing else:
    the source's buffer starts at offset 0, has the window's length and
    holds the window's cells in order. *)
Theorem New_of_window (h : heap) (sl : slice) (cells : list value) :
  h !! ptr sl = Some (VArray cells) ->
  off sl + len sl <= length cells ->
  exists (s : startOp S) h',
    New h (VSlice sl) = Ok (s, h') /\
    off (data s) = 0 /\ len (data s) = len sl /\
    sliceElems h' (data s) = Some (take (len sl) (drop (off sl) cells)) /\
    h' !! ptr (data s) = Some (VArray (take (len sl) (drop (off sl) cells))).
Proof.
  intros Hb Hlen.
  pose proof (sliceElems_backed h sl cells Hb Hlen) as He.
  assert (collection h (VSlice sl)
          = Some (take (len sl) (drop (off sl) cells))) as Hc by done.
  rewrite (New_collection _ _ _ Hc).
  eexists _, _. split; [reflexivity|]. simpl.
  assert (length (take (len sl) (drop (off sl) cells)) = len sl) as Hl.
  { rewrite length_take, length_drop. lia. }
  split; [done|]. split; [done|]. split.
  - apply sliceElems_buffer. by rewrite lookup_insert_eq.
  - by rewrite lookup_insert_eq.
Qed.

(** X6.  Two sources built one after the other have different buffers,
    and building the second leaves the buffer of the first as it was: a
    drive of the first delivers the same before and after. *)
Theorem New_buffers_independent `{!sink S} (h h1 h2 : heap) (v1 v2 : value)
    (s1 s2 : startOp S) :
  New h v1 = Ok (s1, h1) ->
  New h1 v2 = Ok (s2, h2) ->
  ptr (data s2) <> ptr (data s1) /\
  h2 !! ptr (data s1) = h1 !! ptr (data s1) /\
  forall s : startOp S,
    data s = data s1 -> startOp_end h2 s = startOp_end h1 s.
Proof.
  intros HN1 HN2.
  destruct (New_Ok_inv _ _ _ _ HN1) as (xs1 & _ & -> & ->).
  destruct (New_Ok_inv _ _ _ _ HN2) as (xs2 & _ & -> & ->). simpl.
  set (b1 := fresh (dom h : gset loc)).
  set (h1 := <[b1 := VArray xs1]> h).
  set (b2 := fresh (dom h1 : gset loc)).
  assert (b2 <> b1) as Hne.
  { intros E. pose proof (New_fresh_buffer h1) as Hf. fold b2 in Hf.
    rewrite E in Hf. unfold h1 in Hf. by rewrite lookup_insert_eq in Hf. }
  split; [done|].
  assert (<[b2 := VArray xs2]> h1 !! b1 = h1 !! b1) as Hsame
    by by rewrite lookup_insert_ne.
  split; [done|].
  intros s Hd. apply startOp_end_ext. by rewrite Hd.
Qed.

(** X7.  [New] unwraps one pointer and no more: a pointer to a pointer
    panics with "data provides to Stream must be Array or Slice", even
    when the inner pointer leads to a slice; so do the nil interface and
    the nil pointer. *)
Theorem New_unwraps_one_pointer_only (h : heap) (l : loc) (p : option loc) :
  h !! l = Some (VPtr p) ->
  New (S:=S) h (VPtr (Some l)) = Panic notACollection /\
  New (S:=S) h (VPtr None) = Panic notACollection /\
  New (S:=S) h VNil = Panic notACollection.
Proof.
  intros Hl. unfold New. rewrite !setStreamData_cases. simpl.
  by rewrite Hl.
Qed.
End AdapterMore.

Lemma New_same_elements_same_source_witness :
  New (S:=stage unit) storeWithSlice (VArray [VInt 1; VInt 2]) =
  New storeWithSlice (VPtr (Some 2%positive)).
Proof.
  exact (New_same_elements_same_source storeWithSlice
           (VArray [VInt 1; VInt 2]) (VPtr (Some 2%positive))
           [VInt 1; VInt 2] eq_refl eq_refl).
Defined.

Lemma New_of_window_witness :
  exists (s : startOp (stage unit)) h',
    New storeWithFive (VSlice middleSlice) = Ok (s, h') /\
    off (data s) = 0 /\ len (data s) = 3 /\
    sliceElems h' (data s) = Some [VInt 2; VInt 3; VInt 4] /\
    h' !! ptr (data s) = Some (VArray [VInt 2; VInt 3; VInt 4]).
Proof.
  apply (New_of_window storeWithFive middleSlice
           [VInt 1; VInt 2; VInt 3; VInt 4; VInt 5]);
    [reflexivity | simpl; lia].
Defined.

Lemma New_buffers_independent_witness :
  (4%positive : loc) <> 3%positive /\
  (<[4%positive := VArray [VInt 1; VInt 2]]>
     (<[3%positive := VArray [VInt 1; VInt 2]]> storeWithSlice) : heap)
    !! 3%positive =
  (<[3%positive := VArray [VInt 1; VInt 2]]> storeWithSlice : heap)
    !! 3%positive.
Proof.
  destruct (New_buffers_independent (S:=stage unit) storeWithSlice
              (<[3%positive := VArray [VInt 1; VInt 2]]> storeWithSlice)
              (<[4%positive := VArray [VInt 1; VInt 2]]>
                 (<[3%positive := VArray [VInt 1; VInt 2]]> storeWithSlice))
              (VSlice wholeSlice) (VPtr (Some 2%positive))
              (StartOp (BaseStage None false) (Slice_ 3%positive 0 2) false)
              (StartOp (BaseStage None false) (Slice_ 4%positive 0 2) false)
              eq_refl eq_refl)
    as (Hne & Hsame & _).
  split; [exact Hne | exact Hsame].
Defined.

Lemma New_unwraps_one_pointer_only_witness :
  New (S:=stage unit) storeWithPointer (VPtr (Some 3%positive))
    = Panic notACollection /\
  is_Ok (New (S:=stage unit) storeWithPointer (VPtr (Some 2%positive))).
Proof.
  split.
  - exact (proj1 (New_unwraps_one_pointer_only storeWithPointer 3%positive
                    (Some 2%positive) eq_refl)).
  - rewrite (New_collection _ _ [VInt 1; VInt 2]) by reflexivity.
    apply is_Ok_Ok.
Defined.

(** ** An empty container, end to end *)

(** X8.  From an empty array or slice [New] builds a source whose drive
    sends [begin(0)] and [end] and nothing in between, to any sink. *)
Theorem New_empty_drive {S : Type} `{!sink S} (h : heap) (v : value) :
  collection h v = Some [] ->
  exists (s : startOp (traced S)) h',
    New h v = Ok (s, h') /\
    forall down : traced S,
      exists s',
        startOp_end h' (startOp_setNextSink down s) = Ok s' /\
        sourceLog s' = log down ++ [EvBegin 0; EvEnd].
Proof.
  intros Hc. rewrite (New_collection _ _ _ Hc).
  eexists _, _. split; [reflexivity|]. intros down.
  erewrite startOp_end_open; [| reflexivity | reflexivity
                              | apply sliceElems_buffer, lookup_insert_eq].
  eexists. split; [reflexivity|].
  unfold sourceLog. simpl. by rewrite <- app_assoc.
Qed.

Lemma New_empty_drive_witness :
  exists (s : startOp (traced saturated)) h',
    New ∅ (VArray []) = Ok (s, h') /\
    forall down : traced saturated,
      exists s',
        startOp_end h' (startOp_setNextSink down s) = Ok s' /\
        sourceLog s' = log down ++ [EvBegin 0; EvEnd].
Proof.
  exact (New_empty_drive (S:=saturated) ∅ (VArray []) eq_refl).
Defined.


(** ** Messages that reach no sink *)

Section OpenChain.
Context {D : Type} `{!sink D}.

Lemma begin_openChain (p : bool) (flags : list bool) (size : Z) :
  @begin _ (defaults_sink (p :: flags) D) size (openChain p flags D) =
  openChain p flags D.
Proof.
  revert p. induction flags as [|q flags IH]; intros p; [done|].
  change (BaseStage
            (Some (@begin _ (defaults_sink (q :: flags) D) size
                     (openChain q flags D))) p
          = BaseStage (Some (openChain q flags D)) p).
  by rewrite IH.
Qed.

Lemma end_openChain (p : bool) (flags : list bool) :
  @end_ _ (defaults_sink (p :: flags) D) (openChain p flags D) =
  openChain p flags D.
Proof.
  revert p. induction flags as [|q flags IH]; intros p; [done|].
  change (BaseStage
            (Some (@end_ _ (defaults_sink (q :: flags) D)
                     (openChain q flags D))) p
          = BaseStage (Some (openChain q flags D)) p).
  by rewrite IH.
Qed.

Lemma accept_openChain (p : bool) (flags : list bool) (t : value) :
  @accept _ (defaults_sink (p :: flags) D) t (openChain p flags D) =
  openChain p flags D.
Proof.
  revert p. induction flags as [|q flags IH]; intros p; [done|].
  change (BaseStage
            (Some (@accept _ (defaults_sink (q :: flags) D) t
                     (openChain q flags D))) p
          = BaseStage (Some (openChain q flags D)) p).
  by rewrite IH.
Qed.

Lemma deliver_openChain (p : bool) (flags : list bool) (xs : list value) :
  @deliver _ (defaults_sink (p :: flags) D) xs (openChain p flags D) =
  openChain p flags D.
Proof.
  induction xs as [|t xs IH]; [done|].
  pose proof (accept_openChain p flags t) as Ha.
  cbn [deliver]. rewrite Ha.
  change (@cancellationRequested _ (defaults_sink (p :: flags) D)
            (openChain p flags D))
    with (false, openChain p flags D).
  cbn iota. exact IH.
Qed.

(** X9.  A stage without a downstream drops what it is sent: a source
    whose stages override nothing and end in no sink can be driven, and
    the drive returns with the pipeline exactly as it was. *)
Theorem drive_without_sink_changes_nothing (h : heap) (p : bool)
    (flags : list bool) (s : startOp (defaults (p :: flags) D))
    (xs : list value) :
  closed s = false ->
  downStream (base s) = Some (openChain p flags D) ->
  sliceElems h (data s) = Some xs ->
  @startOp_end _ (defaults_sink (p :: flags) D) h s = Ok s.
Proof.
  intros Hc Hd Hx.
  rewrite (@startOp_end_open _ (defaults_sink (p :: flags) D) h s _ xs Hc Hd Hx).
  pose proof (begin_openChain p flags (Z.of_nat (length xs))) as Hb.
  rewrite Hb, deliver_openChain.
  pose proof (end_openChain p flags) as He. rewrite He.
  destruct s as [[down par] dat cl]. simpl in *. subst.
  reflexivity.
Qed.
End OpenChain.

Lemma drive_without_sink_changes_nothing_witness :
  @startOp_end _ (defaults_sink [true; false] saturated) storeWithSlice
    (StartOp (BaseStage (Some (openChain true [false] saturated)) false)
             wholeSlice false) =
  Ok (StartOp (BaseStage (Some (openChain true [false] saturated)) false)
              wholeSlice false).
Proof.
  exact (drive_without_sink_changes_nothing storeWithSlice true [false]
           (StartOp (BaseStage (Some (openChain true [false] saturated)) false)
                    wholeSlice false)
           [VInt 1; VInt 2] eq_refl eq_refl eq_refl).
Defined.

(** ** The variadic constructor *)

(** X10.  The call [Of(v0, v1, ...)] never panics, whatever the
    arguments are (nil, scalars, containers, pointers or none at all),
    and its source holds exactly the arguments, in order and not
    unwrapped. *)
Theorem Of_never_panics {S : Type} (h : heap) (args : list value) :
  exists (s : startOp S) h',
    callOf h args = Ok (s, h') /\
    len (data s) = length args /\
    sliceElems h' (data s) = Some args /\
    closed s = false /\ downStream (base s) = None.
Proof.
  set (l := fresh (dom h : gset loc)).
  assert (collection (<[l := VArray args]> h)
            (VSlice (Slice_ l 0 (length args))) = Some args) as Hc.
  { unfold collection. simpl. rewrite elemsOf_slice.
    apply sliceElems_buffer. by rewrite lookup_insert_eq. }
  unfold callOf, Of. fold l. rewrite (New_collection _ _ _ Hc).
  eexists _, _. split; [reflexivity|]. simpl.
  split; [done|]. split; [|done].
  apply sliceElems_buffer. by rewrite lookup_insert_eq.
Qed.
